(** * Answer-span decoding of the DistilBERT question-answering notebook

    Source: notebooks/213-question-answering/213-bert-question-answering.ipynb.

    The notebook decodes an extractive answer twice: inline, in the cells of
    Step 5 and Step 6 (on torch tensors), and in the function
    [answer_question] of Step 9 (on numpy arrays returned by the compiled
    OpenVINO model).  Both take the argmax of the start scores, the argmax of
    the end scores plus one, and slice the token ids between the two.

    Scores are IEEE-754 floating-point numbers; they are modelled by
    [spec_float], the format-independent specification type of the standard
    library, so that infinities, signed zeros and NaN are all present.
    Score literals are written as primitive floats and read through
    [Prim2SF]. *)

From Stdlib Require Import String.
From Stdlib Require Import ZArith List Bool Lia.
From Stdlib Require Import Permutation.
From Stdlib Require Import Floats.
Import ListNotations.

Set Warnings "-inexact-float".

Local Open Scope Z_scope.

(** ** Scores *)

Definition score := spec_float.

Definition is_nan (x : score) : bool :=
  match x with
  | S754_nan => true
  | _ => false
  end.

(** A list of score literals, e.g. [scores [0.1; 0.9]%float]. *)
Definition scores (l : list float) : list score := map Prim2SF l.

Module Score.

(** [x <= y] in the order that [max] and [argmax] of numpy and torch
    follow: the IEEE order, with NaN ranked above everything (a NaN is
    "maximal" and propagates). *)
Definition leb (x y : score) : bool := is_nan y || SFleb x y.

Definition ltb (x y : score) : bool := negb (leb y x).

(** Same rank: equal as floats ([==], so [0.0] and [-0.0] agree), or both
    NaN. *)
Definition same (x y : score) : bool := leb x y && leb y x.

(** Position of a score on the extended real line, as a triple compared
    lexicographically: class, then exponent, then mantissa. *)
Definition rank (x : score) : Z * Z * Z :=
  match x with
  | S754_nan => (3, 0, 0)
  | S754_infinity false => (2, 0, 0)
  | S754_infinity true => (-2, 0, 0)
  | S754_zero _ => (0, 0, 0)
  | S754_finite false m e => (1, e, Z.pos m)
  | S754_finite true m e => (-1, - e, Z.neg m)
  end.

Definition lex_le (a b : Z * Z * Z) : Prop :=
  let '(a1, a2, a3) := a in
  let '(b1, b2, b3) := b in
  a1 < b1 \/ (a1 = b1 /\ (a2 < b2 \/ (a2 = b2 /\ a3 <= b3))).

End Score.

(** ** Python values and control *)

(** The exceptions the decoding steps can raise: numpy raises [ValueError]
    for the argmax of an empty array and for a failed tuple unpacking; torch
    and both array libraries raise [IndexError] for an index out of range and
    torch for the argmax of an empty tensor. *)
Inductive exn : Type :=
| ValueError
| IndexError.

Inductive result (A : Type) : Type :=
| Ok (a : A)
| Raise (e : exn).

Arguments Ok {A} a.
Arguments Raise {A} e.

Definition bind {A B : Type} (m : result A) (k : A -> result B) : result B :=
  match m with
  | Ok a => k a
  | Raise e => Raise e
  end.

Notation "x <- m ;; k" := (bind m (fun x => k))
  (at level 61, m at next level, right associativity).
Notation "' p <- m ;; k" := (bind m (fun x => let p := x in k))
  (at level 61, p pattern, m at next level, right associativity).

(** A 2-D array (tensor) of shape [rows, columns], row-major. *)
Definition ndarray (A : Type) := list (list A).

(** The flattened data of an array: [argmax] without an axis argument indexes
    into it. *)
Definition ravel {A : Type} (a : ndarray A) : list A := List.concat a.

(** [a[0]]: the first row; [IndexError] when the array has no row. *)
Definition getitem0 {A : Type} (a : ndarray A) : result (list A) :=
  match a with
  | [] => Raise IndexError
  | row :: _ => Ok row
  end.

(** Adjustment of one slice bound against the length, for step 1:
    a negative bound counts from the end, and the bound is clamped into
    [0 .. len]. *)
Definition adjust_index (len i : Z) : Z :=
  if i <? 0 then Z.max 0 (i + len) else Z.min i len.

(** [l[start:stop]]. Never raises. *)
Definition py_slice {A : Type} (l : list A) (start stop : Z) : list A :=
  let len := Z.of_nat (length l) in
  let lo := adjust_index len start in
  let hi := adjust_index len stop in
  firstn (Z.to_nat (hi - lo)) (skipn (Z.to_nat lo) l).

(** ** Library argmax *)

Module Numpy.

(** The scan of [ndarray.argmax] over the elements after the first: [i] is
    the index of the head of [ip], [mp] the largest value so far (never a
    NaN) and [max_ind] its index.  An element replaces [mp] when
    [not (x <= mp)], which is true for a larger element and for a NaN; the
    scan stops at the first NaN. *)
Fixpoint argmax_loop (ip : list score) (i : Z) (mp : score) (max_ind : Z) : Z :=
  match ip with
  | [] => max_ind
  | x :: ip' =>
      if negb (SFleb x mp) then
        if is_nan x then i else argmax_loop ip' (i + 1) x i
      else argmax_loop ip' (i + 1) mp max_ind
  end.

Definition argmax_flat (data : list score) : result Z :=
  match data with
  | [] => Raise ValueError
  | mp :: ip => if is_nan mp then Ok 0 else Ok (argmax_loop ip 1 mp 0)
  end.

(** [a.argmax()]: index, in the flattened array, of the maximum; the first
    one when it occurs several times. *)
Definition argmax (a : ndarray score) : result Z := argmax_flat (ravel a).

End Numpy.

Module Torch.

(** The comparison of torch's argmax reduction: does the candidate [(a, idx_a)]
    beat [(b, idx_b)]?  A NaN beats every number, equal values (and two NaNs)
    are decided by the lower index, otherwise the greater value wins. *)
Definition greater_or_nan (a b : score) (idx_a idx_b : Z) : bool :=
  if is_nan a then
    if is_nan b then idx_a <? idx_b else true
  else
    if SFeqb a b then idx_a <? idx_b else SFltb b a.

(** One step of the reduction: the accumulator [arg] meets the element [val]
    at index [idx]. *)
Definition reduce (arg : score * Z) (val : score) (idx : Z) : score * Z :=
  if greater_or_nan (fst arg) val (snd arg) idx then arg else (val, idx).

Fixpoint reduce_all (data : list score) (idx : Z) (arg : score * Z) : score * Z :=
  match data with
  | [] => arg
  | val :: data' => reduce_all data' (idx + 1) (reduce arg val idx)
  end.

(** The reduction starts from the lowest value, minus infinity, at index 0. *)
Definition lower_bound : score := S754_infinity true.

Definition argmax_flat (data : list score) : result Z :=
  match data with
  | [] => Raise IndexError
  | _ :: _ => Ok (snd (reduce_all data 0 (lower_bound, 0)))
  end.

(** [torch.argmax(t)] without [dim]: index of the maximum of the flattened
    tensor, the first one when it occurs several times. *)
Definition argmax (t : ndarray score) : result Z := argmax_flat (ravel t).

End Torch.

(** ** The notebook *)

(** *** Step 5 and Step 6, inline (torch) *)

(** [start_index = torch.argmax(start_scores)] *)
Definition step5_start_index (start_scores : ndarray score) : result Z :=
  Torch.argmax start_scores.

(** [end_index = torch.argmax(end_scores) + 1] *)
Definition step5_end_index (end_scores : ndarray score) : result Z :=
  i <- Torch.argmax end_scores ;; Ok (i + 1).

(** The cell of Step 5: both assignments, in order. *)
Definition step5_answer_span (start_scores end_scores : ndarray score)
  : result (Z * Z) :=
  start_index <- step5_start_index start_scores ;;
  end_index <- step5_end_index end_scores ;;
  Ok (start_index, end_index).

(** [answer_tokens = inputs["input_ids"][0][start_index:end_index]] *)
Definition step6_answer_tokens (input_ids : ndarray Z) (start_index end_index : Z)
  : result (list Z) :=
  row <- getitem0 input_ids ;;
  Ok (py_slice row start_index end_index).

(** *** Step 9, [answer_question] (numpy) *)

(** [start_index = start_index.argmax()] *)
Definition start_index_of (start_index : ndarray score) : result Z :=
  Numpy.argmax start_index.

(** [end_index = end_index.argmax() + 1] *)
Definition end_index_of (end_index : ndarray score) : result Z :=
  i <- Numpy.argmax end_index ;; Ok (i + 1).

(** "Find the start and end indices of the answer span". *)
Definition find_answer_span (start_index end_index : ndarray score)
  : result (Z * Z) :=
  start_index' <- start_index_of start_index ;;
  end_index' <- end_index_of end_index ;;
  Ok (start_index', end_index').

(** "Get the answer tokens":
    [answer_tokens = inputs["input_ids"][0][start_index:end_index]] *)
Definition get_answer_tokens (input_ids : ndarray Z) (start_index end_index : Z)
  : result (list Z) :=
  row <- getitem0 input_ids ;;
  Ok (py_slice row start_index end_index).

(** The decoding lines of [answer_question], from the two score arrays to the
    answer tokens. *)
Definition select_answer_tokens (start_index end_index : ndarray score)
    (input_ids : ndarray Z) : result (list Z) :=
  '(start_index, end_index) <- find_answer_span start_index end_index ;;
  get_answer_tokens input_ids start_index end_index.

(** The cells of Step 5 and Step 6, run one after the other. *)
Definition step5_step6 (start_scores end_scores : ndarray score)
    (input_ids : ndarray Z) : result (list Z) :=
  '(start_index, end_index) <- step5_answer_span start_scores end_scores ;;
  step6_answer_tokens input_ids start_index end_index.

(** The collaborators of [answer_question], which it receives as arguments. *)

Record tokenizer_kwargs : Type := {
  padding : string;
  max_length : Z;
  truncation : bool;
  return_tensors : string
}.

(** What the tokenizer returns, [dict(input_attention_ids)]. *)
Record model_inputs : Type := {
  input_ids : ndarray Z;
  attention_mask : ndarray Z
}.

Record Tokenizer : Type := {
  tokenize : string -> string -> tokenizer_kwargs -> model_inputs;
  decode : list Z -> string
}.

(** The compiled model: [infer_new_request] returns the output tensors, in
    the order of the model's outputs. *)
Record CompiledModel : Type := {
  infer_new_request : model_inputs -> list (ndarray score)
}.

(** [start_index, end_index = result.values()] *)
Definition unpack2 {A : Type} (values : list A) : result (A * A) :=
  match values with
  | [a; b] => Ok (a, b)
  | _ => Raise ValueError
  end.

Definition answer_question (compiled_model : CompiledModel) (tokenizer : Tokenizer)
    (question context : string) : result string :=
  let input_attention_ids :=
    tokenize tokenizer question context
      {| padding := "max_length"; max_length := 512; truncation := true;
         return_tensors := "np" |} in
  let inputs := input_attention_ids in
  let result := infer_new_request compiled_model inputs in
  '(start_index, end_index) <- unpack2 result ;;
  answer_tokens <- select_answer_tokens start_index end_index (input_ids inputs) ;;
  let answer := decode tokenizer answer_tokens in
  Ok answer.

(** The decoding lines of [answer_question] together, from the values of the
    inference result and the token ids to the answer tokens: the unpacking
    of [result.values()], the two argmax calls, row 0 and the slice.  No
    collaborator is called in them. *)
Definition decode_outputs (values : list (ndarray score))
    (input_ids : ndarray Z) : result (list Z) :=
  '(start_index, end_index) <- unpack2 values ;;
  select_answer_tokens start_index end_index input_ids.

(** The keyword arguments of the tokenizer call in [answer_question]. *)
Definition answer_question_kwargs : tokenizer_kwargs :=
  {| padding := "max_length"; max_length := 512; truncation := true;
     return_tensors := "np" |}.

(** *** Step 4 to Step 6 as one run *)

(** What the torch model returns: [outputs.start_logits] and
    [outputs.end_logits]. *)
Record QAOutput : Type := {
  start_logits : ndarray score;
  end_logits : ndarray score
}.

(** The cells of Step 4, Step 5 and Step 6, run in order on the [inputs] that
    the tokenizer call of Step 3 left in the notebook:
    the call of the model on [inputs], the two score tensors of its
    [outputs], the span, the answer tokens and the decoded [answer]. *)
Definition notebook_answer (model : model_inputs -> QAOutput)
    (tokenizer : Tokenizer) (inputs : model_inputs) : result string :=
  let outputs := model inputs in
  let start_scores := start_logits outputs in
  let end_scores := end_logits outputs in
  '(start_index, end_index) <- step5_answer_span start_scores end_scores ;;
  answer_tokens <- step6_answer_tokens (input_ids inputs) start_index end_index ;;
  let answer := decode tokenizer answer_tokens in
  Ok answer.

(** ** The property side: the first occurrence of the maximum *)

(** The greater of two scores; a NaN propagates, as in [max] of the array
    libraries. *)
Definition score_max (x y : score) : score := if Score.leb x y then y else x.

(** The maximum value of a sequence; none for the empty one. *)
Definition maximum (l : list score) : option score :=
  match l with
  | [] => None
  | x :: l' => Some (fold_left score_max l' x)
  end.

(** Index of the first element of [l] that equals [m]. *)
Fixpoint first_occurrence (m : score) (l : list score) : option Z :=
  match l with
  | [] => None
  | x :: l' =>
      if Score.same x m then Some 0
      else option_map Z.succ (first_occurrence m l')
  end.

Definition index_of_first_max (l : list score) : option Z :=
  match maximum l with
  | None => None
  | Some m => first_occurrence m l
  end.

(** [i] is the position of the first maximum of [l]: nothing in [l] is above
    [l[i]], and everything before position [i] is strictly below it. *)
Definition FirstMax (l : list score) (i : nat) : Prop :=
  exists x, nth_error l i = Some x /\
    (forall y, In y l -> Score.leb y x = true) /\
    (forall k y, (k < i)%nat -> nth_error l k = Some y -> Score.ltb y x = true).

(** Rearrangement of [a] along a list of positions: element [k] of the result
    is [a[p[k]]]. *)
Definition permute (p : list nat) (a : list score) : list score :=
  map (fun j => nth j a S754_nan) p.

(** Two score sequences that are the same element by element, as floats. *)
Definition same_scores (l l' : list score) : Prop :=
  Forall2 (fun x y => Score.same x y = true) l l'.

(** Two score sequences order their positions alike: of any two positions,
    the one is ranked at most the other in the first sequence exactly when it
    is in the second. *)
Definition order_alike (l l' : list score) : Prop :=
  length l = length l' /\
  forall i j x y x' y',
    nth_error l i = Some x -> nth_error l j = Some y ->
    nth_error l' i = Some x' -> nth_error l' j = Some y' ->
    Score.leb x y = Score.leb x' y'.

(** No score of [l] is above [m]. *)
Definition all_at_most (m : score) (l : list score) : Prop :=
  Forall (fun y => Score.leb y m = true) l.

(** Two outcomes agree: the same value, or an exception on both sides. *)
Definition same_outcome {A : Type} (r1 r2 : result A) : Prop :=
  match r1, r2 with
  | Ok a, Ok b => a = b
  | Raise _, Raise _ => True
  | _, _ => False
  end.

(** ** Stand-ins for the collaborators, to run the definitions *)

Module Toy.

Definition vocabulary : list (Z * string) :=
  [(101, "[CLS]"); (102, "[SEP]"); (0, "[PAD]"); (1327, "What");
   (1110, "is"); (7460, "Open"); (151, "Neural"); (3998, "Network")]%string.

Fixpoint word (vocab : list (Z * string)) (id : Z) : string :=
  match vocab with
  | [] => "[UNK]"
  | (k, w) :: vocab' => if k =? id then w else word vocab' id
  end.

(** A tokenizer that ignores the text and returns [ids], padded with the id 0
    up to [max_length] when the padding is "max_length". *)
Definition tokenizer (ids : list Z) : Tokenizer :=
  {| tokenize := fun _ _ kwargs =>
       let pad :=
         if String.eqb (padding kwargs) "max_length"
         then repeat 0 (Z.to_nat (max_length kwargs) - length ids)
         else [] in
       {| input_ids := [ids ++ pad];
          attention_mask := [map (fun _ => 1) ids ++ map (fun _ => 0) pad] |};
     decode := fun tokens => String.concat " " (map (word vocabulary) tokens) |}.

(** A compiled model that returns the given output tensors. *)
Definition compiled_model (outputs : list (ndarray score)) : CompiledModel :=
  {| infer_new_request := fun _ => outputs |}.

(** A torch model that returns the given score rows. *)
Definition model (start_scores end_scores : list score)
  : model_inputs -> QAOutput :=
  fun _ => {| start_logits := [start_scores]; end_logits := [end_scores] |}.

End Toy.

(** Case analysis on the comparison of two scores. *)
Ltac by_cases :=
  repeat match goal with
  | s : bool |- _ => destruct s
  end;
  cbn;
  change (Pos.compare_cont Eq) with Pos.compare;
  repeat match goal with
  | |- context [Z.compare ?a ?b] => destruct (Z.compare_spec a b)
  | |- context [Pos.compare ?a ?b] => destruct (Pos.compare_spec a b)
  end;
  cbn.

Example numpy_argmax_ex :
  Numpy.argmax [scores [0.1; 0.9; 0.2; 0.9]%float] = Ok 1.
Proof. reflexivity. Qed.

Example torch_argmax_ex :
  Torch.argmax [scores [0.1; 0.9; 0.2; 0.9]%float] = Ok 1.
Proof. reflexivity. Qed.

Example step5_answer_span_ex :
  step5_answer_span [scores [0.9; 0.1]%float] [scores [0.8; 0.1]%float]
  = Ok (0, 1).
Proof. reflexivity. Qed.

Example nan_is_maximal_ex :
  Numpy.argmax [scores [0.1; nan; 0.9; nan]%float] = Ok 1 /\
  Torch.argmax [scores [0.1; nan; 0.9; nan]%float] = Ok 1 /\
  index_of_first_max (scores [0.1; nan; 0.9; nan]%float) = Some 1.
Proof. repeat split. Qed.

Example signed_zeros_tie_ex :
  Numpy.argmax [scores [-0.5; -0.0; 0.0]%float] = Ok 1 /\
  Torch.argmax [scores [-0.5; -0.0; 0.0]%float] = Ok 1.
Proof. split; reflexivity. Qed.

Example empty_scores_ex :
  find_answer_span [[]] [scores [0.5]%float] = Raise ValueError /\
  step5_answer_span [[]] [scores [0.5]%float] = Raise IndexError.
Proof. split; reflexivity. Qed.

Example py_slice_ex : py_slice [10; 11; 12; 13] 1 3 = [11; 12].
Proof. reflexivity. Qed.

Example py_slice_clamp_ex : py_slice [10; 11; 12; 13] 2 9 = [12; 13].
Proof. reflexivity. Qed.

(** ** The order on scores *)

Module ScoreFacts.
Import Score.

Lemma leb_rank (x y : score) : leb x y = true <-> lex_le (rank x) (rank y).
Proof.
  unfold leb, SFleb, lex_le.
  destruct x as [sx | sx | | sx mx ex], y as [sy | sy | | sy my ey];
    by_cases; split; intros; try reflexivity; try discriminate; lia.
Qed.

Lemma lex_le_refl a : lex_le a a.
Proof. destruct a as [[a1 a2] a3]; unfold lex_le; lia. Qed.

Lemma lex_le_trans a b c : lex_le a b -> lex_le b c -> lex_le a c.
Proof.
  destruct a as [[a1 a2] a3], b as [[b1 b2] b3], c as [[c1 c2] c3].
  unfold lex_le; lia.
Qed.

Lemma lex_le_total a b : lex_le a b \/ lex_le b a.
Proof.
  destruct a as [[a1 a2] a3], b as [[b1 b2] b3]; unfold lex_le; lia.
Qed.

Lemma leb_refl x : leb x x = true.
Proof. apply leb_rank, lex_le_refl. Qed.

Lemma leb_trans x y z : leb x y = true -> leb y z = true -> leb x z = true.
Proof.
  rewrite !leb_rank. apply lex_le_trans.
Qed.

Lemma leb_total x y : leb x y = false -> leb y x = true.
Proof.
  intros H. destruct (lex_le_total (rank x) (rank y)) as [L | L].
  - apply leb_rank in L. congruence.
  - now apply leb_rank.
Qed.

Lemma ltb_leb x y : ltb x y = true -> leb x y = true.
Proof.
  unfold ltb. intros H. apply leb_total. now apply negb_true_iff.
Qed.

Lemma ltb_not_leb x y : ltb x y = true -> leb y x = false.
Proof. unfold ltb. apply negb_true_iff. Qed.

Lemma not_leb_ltb x y : leb y x = false -> ltb x y = true.
Proof. unfold ltb. apply negb_true_iff. Qed.

Lemma leb_ltb_trans x y z : leb x y = true -> ltb y z = true -> ltb x z = true.
Proof.
  intros Hxy Hyz. apply not_leb_ltb.
  destruct (leb z x) eqn:Hzx; [ | reflexivity].
  apply ltb_not_leb in Hyz. rewrite (leb_trans _ _ _ Hzx Hxy) in Hyz.
  discriminate.
Qed.

Lemma ltb_leb_trans x y z : ltb x y = true -> leb y z = true -> ltb x z = true.
Proof.
  intros Hxy Hyz. apply not_leb_ltb.
  destruct (leb z x) eqn:Hzx; [ | reflexivity].
  apply ltb_not_leb in Hxy. rewrite (leb_trans _ _ _ Hyz Hzx) in Hxy.
  discriminate.
Qed.

Lemma leb_nan x : leb x S754_nan = true.
Proof. reflexivity. Qed.

(** Against a number, the order is the IEEE comparison. *)
Lemma SFleb_leb x mp : is_nan mp = false -> SFleb x mp = leb x mp.
Proof. unfold leb. now intros ->. Qed.

Lemma leb_not_nan x y : leb x y = true -> is_nan y = false -> is_nan x = false.
Proof.
  destruct x; try reflexivity. destruct y; cbn; intros; congruence.
Qed.

Lemma same_leb x y : same x y = true -> leb x y = true /\ leb y x = true.
Proof. unfold same. apply andb_true_iff. Qed.

(** Equal or lower, read off the IEEE comparisons torch uses. *)
Lemma eqb_or_ltb a x :
  is_nan a = false -> (if SFeqb a x then true else SFltb x a) = leb x a.
Proof.
  unfold leb, SFleb, SFeqb, SFltb.
  destruct x as [sx | sx | | sx mx ex], a as [sy | sy | | sy my ey];
    by_cases; intros; try reflexivity; try discriminate; lia.
Qed.

(** Between numbers, strictly below is the IEEE [<]. *)
Lemma ltb_SFltb x y :
  is_nan x = false -> is_nan y = false -> ltb x y = SFltb x y.
Proof.
  unfold ltb, leb, SFleb, SFltb.
  destruct x as [sx | sx | | sx mx ex], y as [sy | sy | | sy my ey];
    by_cases; intros; try reflexivity; try discriminate; lia.
Qed.

Lemma lower_bound_least x :
  (if SFeqb (S754_infinity true) x then false else SFltb x (S754_infinity true))
  = false.
Proof. destruct x as [[|] | [|] | | [|] m e]; reflexivity. Qed.

End ScoreFacts.

(** ** The first maximum of a sequence *)

Module FirstMaxFacts.
Import Score ScoreFacts.

Lemma FirstMax_head x l :
  (forall y, In y l -> leb y x = true) -> FirstMax (x :: l) 0.
Proof.
  intros H. exists x. split; [reflexivity | split].
  - intros y [<- | Hy]; [apply leb_refl | auto].
  - intros k y Hk. lia.
Qed.

Lemma FirstMax_tail x l j y :
  FirstMax l j -> nth_error l j = Some y -> ltb x y = true ->
  FirstMax (x :: l) (S j).
Proof.
  intros (z & Hz & Hmax & Hlt) Hy Hx.
  rewrite Hy in Hz. injection Hz as <-.
  exists y. split; [exact Hy | split].
  - intros w [<- | Hw]; [now apply ltb_leb | auto].
  - intros [ | k] w Hk Hw; cbn in Hw.
    + injection Hw as <-. exact Hx.
    + apply (Hlt k); [lia | exact Hw].
Qed.

Lemma FirstMax_unique l i j : FirstMax l i -> FirstMax l j -> i = j.
Proof.
  assert (A : forall i j, FirstMax l i -> FirstMax l j -> ~ (i < j)%nat).
  { clear i j. intros i j (x & Hx & Hmx & _) (y & Hy & _ & Hly) H.
    pose proof (Hly i x H Hx) as L. apply ltb_not_leb in L.
    rewrite (Hmx y (nth_error_In _ _ Hy)) in L. discriminate. }
  intros Hi Hj. pose proof (A i j Hi Hj). pose proof (A j i Hj Hi). lia.
Qed.

Lemma FirstMax_lt_length l i : FirstMax l i -> (i < length l)%nat.
Proof.
  intros (x & Hx & _). apply nth_error_Some. congruence.
Qed.

(** On scores without NaN the first maximum is the one of the IEEE
    comparisons. *)
Lemma FirstMax_ieee l i :
  Forall (fun x => is_nan x = false) l -> FirstMax l i ->
  exists x, nth_error l i = Some x /\
    (forall y, In y l -> SFleb y x = true) /\
    (forall k y, (k < i)%nat -> nth_error l k = Some y -> SFltb y x = true).
Proof.
  intros Hnan (x & Hx & Hmax & Hbelow).
  rewrite Forall_forall in Hnan.
  assert (Hnx : is_nan x = false) by (apply Hnan; eapply nth_error_In; eauto).
  exists x. split; [exact Hx | split].
  - intros y Hy. rewrite (SFleb_leb y x Hnx). now apply Hmax.
  - intros k y Hk Hy. rewrite <- ltb_SFltb; [now apply (Hbelow k) | | exact Hnx].
    apply Hnan. eapply nth_error_In; eauto.
Qed.

(** *** numpy *)

Lemma argmax_loop_spec ip : forall i mp max_ind,
  is_nan mp = false ->
  ((forall y, In y ip -> leb y mp = true) /\
   Numpy.argmax_loop ip i mp max_ind = max_ind)
  \/
  (exists j y, FirstMax ip j /\ nth_error ip j = Some y /\ ltb mp y = true /\
     Numpy.argmax_loop ip i mp max_ind = i + Z.of_nat j).
Proof.
  induction ip as [ | x ip IH]; intros i mp max_ind Hmp;
    cbn [Numpy.argmax_loop].
  - left. split; [intros y [] | reflexivity].
  - rewrite (SFleb_leb x mp Hmp).
    destruct (leb x mp) eqn:Hx; cbn [negb].
    + destruct (IH (i + 1) mp max_ind Hmp)
        as [[Hall Heq] | (j & y & HF & Hy & Hlt & Heq)].
      * left. split; [ | exact Heq]. intros y [<- | Hy]; auto.
      * right. exists (S j), y. repeat split; try assumption.
        -- apply FirstMax_tail with y; try assumption.
           now apply leb_ltb_trans with mp.
        -- rewrite Heq. lia.
    + right. apply not_leb_ltb in Hx.
      destruct (is_nan x) eqn:Hn.
      * exists 0%nat, x. repeat split; try assumption; [ | lia].
        apply FirstMax_head. intros y _.
        destruct x; try discriminate. apply leb_nan.
      * destruct (IH (i + 1) x i Hn)
          as [[Hall Heq] | (j & y & HF & Hy & Hlt & Heq)].
        -- exists 0%nat, x. repeat split; try assumption.
           ++ now apply FirstMax_head.
           ++ rewrite Heq. lia.
        -- exists (S j), y. repeat split; try assumption.
           ++ now apply FirstMax_tail with y.
           ++ apply ltb_leb_trans with x; [exact Hx | now apply ltb_leb].
           ++ rewrite Heq. lia.
Qed.

Lemma numpy_argmax_flat_spec l :
  l <> [] -> exists i, Numpy.argmax_flat l = Ok (Z.of_nat i) /\ FirstMax l i.
Proof.
  destruct l as [ | mp ip]; [congruence | intros _].
  cbn [Numpy.argmax_flat]. destruct (is_nan mp) eqn:Hn.
  - exists 0%nat. split; [reflexivity | ].
    apply FirstMax_head. intros y _. destruct mp; try discriminate.
    apply leb_nan.
  - destruct (argmax_loop_spec ip 1 mp 0 Hn)
      as [[Hall Heq] | (j & y & HF & Hy & Hlt & Heq)].
    + exists 0%nat. rewrite Heq. split; [reflexivity | ].
      now apply FirstMax_head.
    + exists (S j). rewrite Heq. split; [f_equal; lia | ].
      now apply FirstMax_tail with y.
Qed.

(** *** torch *)

Lemma greater_or_nan_leb a x ia idx :
  ia < idx -> Torch.greater_or_nan a x ia idx = leb x a.
Proof.
  intros H. apply Z.ltb_lt in H. unfold Torch.greater_or_nan. rewrite H.
  destruct (is_nan a) eqn:Ha.
  - destruct a; try discriminate. rewrite leb_nan. now destruct (is_nan x).
  - rewrite <- (eqb_or_ltb a x Ha). reflexivity.
Qed.

Lemma reduce_all_spec data : forall idx a ia,
  ia < idx ->
  ((forall y, In y data -> leb y a = true) /\
   snd (Torch.reduce_all data idx (a, ia)) = ia)
  \/
  (exists j y, FirstMax data j /\ nth_error data j = Some y /\
     ltb a y = true /\
     snd (Torch.reduce_all data idx (a, ia)) = idx + Z.of_nat j).
Proof.
  induction data as [ | x data IH]; intros idx a ia Hlt;
    cbn [Torch.reduce_all].
  - left. split; [intros y [] | reflexivity].
  - unfold Torch.reduce. cbn [fst snd].
    rewrite (greater_or_nan_leb a x ia idx Hlt).
    destruct (leb x a) eqn:Hx.
    + destruct (IH (idx + 1) a ia ltac:(lia))
        as [[Hall Heq] | (j & y & HF & Hy & Hay & Heq)].
      * left. split; [ | exact Heq]. intros y [<- | Hy]; auto.
      * right. exists (S j), y. repeat split; try assumption.
        -- apply FirstMax_tail with y; try assumption.
           now apply leb_ltb_trans with a.
        -- rewrite Heq. lia.
    + right. apply not_leb_ltb in Hx.
      destruct (IH (idx + 1) x idx ltac:(lia))
        as [[Hall Heq] | (j & y & HF & Hy & Hxy & Heq)].
      * exists 0%nat, x. repeat split; try assumption.
        -- now apply FirstMax_head.
        -- rewrite Heq. lia.
      * exists (S j), y. repeat split; try assumption.
        -- now apply FirstMax_tail with y.
        -- apply ltb_leb_trans with x; [exact Hx | now apply ltb_leb].
        -- rewrite Heq. lia.
Qed.

Lemma reduce_first x : Torch.reduce (Torch.lower_bound, 0) x 0 = (x, 0).
Proof.
  unfold Torch.reduce, Torch.greater_or_nan, Torch.lower_bound.
  cbn [fst snd is_nan]. change (0 <? 0) with false.
  now rewrite lower_bound_least.
Qed.

Lemma torch_argmax_flat_spec l :
  l <> [] -> exists i, Torch.argmax_flat l = Ok (Z.of_nat i) /\ FirstMax l i.
Proof.
  destruct l as [ | x l]; [congruence | intros _].
  cbn [Torch.argmax_flat Torch.reduce_all]. rewrite reduce_first.
  destruct (reduce_all_spec l (0 + 1) x 0 ltac:(lia))
    as [[Hall Heq] | (j & y & HF & Hy & Hxy & Heq)].
  - exists 0%nat. rewrite Heq. split; [reflexivity | ].
    now apply FirstMax_head.
  - exists (S j). rewrite Heq. split; [f_equal; lia | ].
    now apply FirstMax_tail with y.
Qed.

(** *** the maximum and its first occurrence *)

Lemma fold_max_spec l : forall x,
  leb x (fold_left score_max l x) = true /\
  (forall y, In y l -> leb y (fold_left score_max l x) = true) /\
  (fold_left score_max l x = x \/ In (fold_left score_max l x) l).
Proof.
  induction l as [ | z l IH]; intros x; cbn [fold_left].
  - repeat split; [apply leb_refl | intros y [] | now left].
  - destruct (IH (score_max x z)) as (H1 & H2 & H3).
    assert (Hx : leb x (score_max x z) = true).
    { unfold score_max. destruct (leb x z) eqn:E; [exact E | apply leb_refl]. }
    assert (Hz : leb z (score_max x z) = true).
    { unfold score_max. destruct (leb x z) eqn:E;
        [apply leb_refl | now apply leb_total]. }
    repeat split.
    + now apply leb_trans with (score_max x z).
    + intros y [<- | Hy]; [now apply leb_trans with (score_max x z) | auto].
    + destruct H3 as [H3 | H3]; [ | right; now right].
      rewrite H3. unfold score_max. destruct (leb x z); [right | ]; now left.
Qed.

Lemma first_occurrence_spec m l :
  (forall y, In y l -> leb y m = true) -> In m l ->
  exists i, first_occurrence m l = Some (Z.of_nat i) /\ FirstMax l i.
Proof.
  induction l as [ | x l IH]; intros Hall Hin; [destruct Hin | ].
  cbn [first_occurrence]. destruct (same x m) eqn:Hs.
  - exists 0%nat. split; [reflexivity | ].
    apply same_leb in Hs. destruct Hs as [_ Hmx].
    apply FirstMax_head. intros y Hy.
    apply leb_trans with m; [apply Hall; now right | exact Hmx].
  - assert (Hxm : ltb x m = true).
    { apply not_leb_ltb. unfold same in Hs.
      rewrite (Hall x (or_introl eq_refl)) in Hs. exact Hs. }
    assert (Hin' : In m l).
    { destruct Hin as [-> | Hin]; [ | exact Hin].
      unfold same in Hs. rewrite leb_refl in Hs. discriminate. }
    destruct IH as (i & Hi & HF); [intros y Hy; apply Hall; now right
                                  | exact Hin' | ].
    exists (S i). rewrite Hi. split; [cbn; f_equal; lia | ].
    destruct HF as (y & Hy & Hmax & Hbelow).
    apply FirstMax_tail with y; [now exists y | exact Hy | ].
    apply ltb_leb_trans with m; [exact Hxm | now apply Hmax].
Qed.

Lemma index_of_first_max_spec l :
  l <> [] -> exists i, index_of_first_max l = Some (Z.of_nat i) /\ FirstMax l i.
Proof.
  destruct l as [ | x l]; [congruence | intros _].
  unfold index_of_first_max, maximum.
  destruct (fold_max_spec l x) as (H1 & H2 & H3).
  apply first_occurrence_spec.
  - intros y [<- | Hy]; auto.
  - destruct H3 as [-> | H3]; [now left | now right].
Qed.

End FirstMaxFacts.

(** ** Slicing *)

Module SliceFacts.

Lemma adjust_index_nonneg len i :
  0 <= i -> 0 <= len -> adjust_index len i = Z.min i len.
Proof.
  intros Hi _. unfold adjust_index.
  destruct (i <? 0) eqn:E; [apply Z.ltb_lt in E; lia | reflexivity].
Qed.

(** An end at or before the start selects nothing (for bounds that do not
    count from the end). *)
Lemma py_slice_empty {A : Type} (l : list A) start stop :
  0 <= stop -> stop <= start -> py_slice l start stop = [].
Proof.
  intros H0 H. unfold py_slice. cbv zeta.
  rewrite (adjust_index_nonneg _ start ltac:(lia) (Nat2Z.is_nonneg _)).
  rewrite (adjust_index_nonneg _ stop H0 (Nat2Z.is_nonneg _)).
  replace (Z.to_nat _) with 0%nat by lia. reflexivity.
Qed.

(** An end beyond the sequence is clamped to its length. *)
Lemma py_slice_clamp {A : Type} (l : list A) start stop :
  0 <= start -> Z.of_nat (length l) < stop ->
  py_slice l start stop = skipn (Z.to_nat start) l.
Proof.
  intros Hs He. unfold py_slice.
  cbv zeta.
  rewrite (adjust_index_nonneg _ start Hs (Nat2Z.is_nonneg _)).
  rewrite (adjust_index_nonneg _ stop ltac:(lia) (Nat2Z.is_nonneg _)).
  rewrite (Z.min_r stop) by lia.
  rewrite firstn_all2.
  - destruct (Z.le_gt_cases start (Z.of_nat (length l))) as [L | G].
    + now rewrite Z.min_l.
    + rewrite Z.min_r by lia. rewrite !skipn_all2; [reflexivity | lia | lia].
  - rewrite length_skipn. lia.
Qed.

End SliceFacts.

(** ** Both argmax functions find the first maximum *)

Module ArgmaxFacts.
Import FirstMaxFacts.

Lemma ravel_row {A : Type} (l : list A) : ravel [l] = l.
Proof. unfold ravel. cbn. apply app_nil_r. Qed.

Lemma argmax_row_first_max (l : list score) :
  l <> [] ->
  exists i, FirstMax l i /\
    index_of_first_max l = Some (Z.of_nat i) /\
    Numpy.argmax [l] = Ok (Z.of_nat i) /\
    Torch.argmax [l] = Ok (Z.of_nat i).
Proof.
  intros Hl.
  destruct (numpy_argmax_flat_spec l Hl) as (i & Hn & Hi).
  destruct (torch_argmax_flat_spec l Hl) as (j & Ht & Hj).
  destruct (index_of_first_max_spec l Hl) as (k & Hs & Hk).
  rewrite (FirstMax_unique l j i Hj Hi) in Ht.
  rewrite (FirstMax_unique l k i Hk Hi) in Hs.
  exists i. unfold Numpy.argmax, Torch.argmax. rewrite ravel_row. auto.
Qed.

Lemma argmax_flat_agree (l : list score) :
  same_outcome (Torch.argmax_flat l) (Numpy.argmax_flat l).
Proof.
  destruct l as [ | x l]; [exact I | ].
  destruct (numpy_argmax_flat_spec (x :: l) ltac:(discriminate)) as (i & Hn & Hi).
  destruct (torch_argmax_flat_spec (x :: l) ltac:(discriminate)) as (j & Ht & Hj).
  rewrite Hn, Ht. cbn. now rewrite (FirstMax_unique _ j i Hj Hi).
Qed.

Lemma argmax_row_empty :
  Numpy.argmax [[]] = Raise ValueError /\ Torch.argmax [[]] = Raise IndexError.
Proof. split; reflexivity. Qed.

End ArgmaxFacts.

(** ** The answer span *)

Module SpanFacts.
Import FirstMaxFacts ArgmaxFacts.

(** On two non-empty score sequences both decoders return the positions of
    the first maxima, the second one plus one. *)
Lemma answer_span_rows (start_scores end_scores : list score) :
  start_scores <> [] -> end_scores <> [] ->
  exists i j,
    FirstMax start_scores i /\ FirstMax end_scores j /\
    index_of_first_max start_scores = Some (Z.of_nat i) /\
    index_of_first_max end_scores = Some (Z.of_nat j) /\
    find_answer_span [start_scores] [end_scores]
      = Ok (Z.of_nat i, Z.of_nat j + 1) /\
    step5_answer_span [start_scores] [end_scores]
      = Ok (Z.of_nat i, Z.of_nat j + 1).
Proof.
  intros Hs He.
  destruct (argmax_row_first_max start_scores Hs) as (i & Hi & Hsi & Hni & Hti).
  destruct (argmax_row_first_max end_scores He) as (j & Hj & Hsj & Hnj & Htj).
  exists i, j.
  unfold find_answer_span, start_index_of, end_index_of,
    step5_answer_span, step5_start_index, step5_end_index.
  rewrite Hni, Hnj, Hti, Htj. cbn. auto 10.
Qed.

(** [answer_question] is the decoding of the two arrays the compiled model
    returns, applied to the token ids the tokenizer produced. *)
Lemma answer_question_decodes compiled_model tokenizer question context
    (start_scores end_scores : ndarray score) :
  let inputs :=
    tokenize tokenizer question context
      {| padding := "max_length"; max_length := 512; truncation := true;
         return_tensors := "np" |} in
  infer_new_request compiled_model inputs = [start_scores; end_scores] ->
  answer_question compiled_model tokenizer question context
  = (answer_tokens <- select_answer_tokens start_scores end_scores
                        (input_ids inputs) ;;
     Ok (decode tokenizer answer_tokens)).
Proof.
  intros inputs H. unfold answer_question. fold inputs. now rewrite H.
Qed.

Lemma same_length_nonempty {A B : Type} (l : list A) (l' : list B) :
  l <> [] -> length l = length l' -> l' <> [].
Proof.
  destruct l, l'; cbn; congruence.
Qed.

End SpanFacts.

(** ** Scores that compare equal are interchangeable *)

Module SameFacts.
Import Score ScoreFacts.

Lemma same_refl x : same x x = true.
Proof. unfold same. now rewrite leb_refl. Qed.

Lemma same_scores_refl l : same_scores l l.
Proof.
  induction l as [ | x l IH]; constructor; [apply same_refl | exact IH].
Qed.

Lemma leb_same x x' y y' :
  same x x' = true -> same y y' = true -> leb x y = leb x' y'.
Proof.
  intros Hx Hy. apply same_leb in Hx, Hy.
  destruct Hx as [Hx1 Hx2], Hy as [Hy1 Hy2].
  destruct (leb x y) eqn:E, (leb x' y') eqn:E'; try reflexivity.
  - rewrite (leb_trans _ _ _ Hx2 (leb_trans _ _ _ E Hy1)) in E'.
    discriminate.
  - rewrite (leb_trans _ _ _ Hx1 (leb_trans _ _ _ E' Hy2)) in E.
    discriminate.
Qed.

Lemma same_is_nan x x' : same x x' = true -> is_nan x = is_nan x'.
Proof.
  intros H. apply same_leb in H. destruct H as [H1 H2].
  destruct (is_nan x) eqn:E, (is_nan x') eqn:E'; try reflexivity.
  - rewrite (leb_not_nan _ _ H1 E') in E. discriminate.
  - rewrite (leb_not_nan _ _ H2 E) in E'. discriminate.
Qed.

Lemma argmax_loop_same ip ip' :
  same_scores ip ip' ->
  forall i mp mp' max_ind,
    same mp mp' = true -> is_nan mp = false ->
    Numpy.argmax_loop ip i mp max_ind = Numpy.argmax_loop ip' i mp' max_ind.
Proof.
  induction 1 as [ | x x' ip ip' Hx _ IH]; intros i mp mp' max_ind Hmp Hn;
    cbn [Numpy.argmax_loop]; [reflexivity | ].
  assert (Hn' : is_nan mp' = false) by now rewrite <- (same_is_nan _ _ Hmp).
  rewrite (SFleb_leb x mp Hn), (SFleb_leb x' mp' Hn').
  rewrite <- (leb_same _ _ _ _ Hx Hmp), <- (same_is_nan _ _ Hx).
  destruct (leb x mp); cbn [negb]; [now apply IH | ].
  destruct (is_nan x) eqn:Hnx; [reflexivity | now apply IH].
Qed.

Lemma numpy_argmax_same l l' :
  same_scores l l' -> Numpy.argmax [l] = Numpy.argmax [l'].
Proof.
  intros H. unfold Numpy.argmax. rewrite !ArgmaxFacts.ravel_row.
  destruct H as [ | x x' l l' Hx H]; [reflexivity | ].
  cbn [Numpy.argmax_flat]. rewrite <- (same_is_nan _ _ Hx).
  destruct (is_nan x) eqn:Hn; [reflexivity | ].
  f_equal. now apply argmax_loop_same.
Qed.

End SameFacts.

(** ** Rearranging the scores below the maximum *)

Module PermuteFacts.
Import Score ScoreFacts FirstMaxFacts.

Lemma nth_error_permute p a k j :
  nth_error p k = Some j -> (j < length a)%nat ->
  nth_error (permute p a) k = nth_error a j.
Proof.
  intros Hk Hj. unfold permute. rewrite nth_error_map, Hk. cbn.
  symmetry. now apply nth_error_nth'.
Qed.

(** A rearrangement that moves no element that reaches the maximum keeps the
    first maximum where it is. *)
Lemma FirstMax_permute a p m i :
  maximum a = Some m ->
  Permutation p (seq 0 (length a)) ->
  (forall k x, nth_error a k = Some x -> ltb x m = false ->
               nth_error p k = Some k) ->
  FirstMax a i -> FirstMax (permute p a) i.
Proof.
  intros Hm Hp Hfix (x & Hx & Hmax & Hbelow).
  assert (Hmx : leb m x = true).
  { apply Hmax. destruct a as [ | z a]; [discriminate | ].
    cbn in Hm. injection Hm as <-.
    destruct (fold_max_spec a z) as (_ & _ & [-> | H]); [now left | now right]. }
  assert (Hrange : forall k j, nth_error p k = Some j -> (j < length a)%nat).
  { intros k j Hk. apply nth_error_In in Hk.
    apply (Permutation_in _ Hp) in Hk. apply in_seq in Hk. lia. }
  assert (Hnodup : NoDup p).
  { apply (Permutation_NoDup (Permutation_sym Hp)), seq_NoDup. }
  assert (Hpi : nth_error p i = Some i).
  { apply (Hfix i x Hx). unfold ltb. now rewrite Hmx. }
  exists x. split; [ | split].
  - rewrite (nth_error_permute p a i i Hpi); [exact Hx | ].
    apply nth_error_Some. congruence.
  - intros y Hy. apply In_nth_error in Hy. destruct Hy as (k & Hk).
    unfold permute in Hk. rewrite nth_error_map in Hk.
    destruct (nth_error p k) as [j | ] eqn:Hj; [ | discriminate].
    cbn in Hk. injection Hk as <-.
    apply Hmax, nth_In. now apply (Hrange k).
  - intros k y Hki Hk.
    unfold permute in Hk. rewrite nth_error_map in Hk.
    destruct (nth_error p k) as [j | ] eqn:Hj; [ | discriminate].
    cbn in Hk. injection Hk as <-.
    pose proof (Hrange k j Hj) as Hjlen.
    set (y := nth j a S754_nan).
    assert (Hy : nth_error a j = Some y) by now apply nth_error_nth'.
    destruct (ltb y x) eqn:Hyx; [reflexivity | exfalso].
    assert (Hym : ltb y m = false).
    { unfold ltb in *. apply negb_false_iff in Hyx. apply negb_false_iff.
      now apply leb_trans with x. }
    pose proof (Hfix j y Hy Hym) as Hpj.
    assert (Hkj : k = j).
    { apply (proj1 (NoDup_nth_error p) Hnodup).
      - apply nth_error_Some. congruence.
      - congruence. }
    subst j. rewrite (Hbelow k y Hki Hy) in Hyx. discriminate.
Qed.

End PermuteFacts.

(** ** The claims *)

(** C1. For every pair of non-empty score sequences of equal length, the
    start index is the index of the first occurrence of the maximum of the
    start scores, and the end index is the index of the first occurrence of
    the maximum of the end scores, plus one; in [answer_question] and in the
    cell of Step 5 alike. *)
Theorem answer_span_first_maxima (start_scores end_scores : list score) :
  start_scores <> [] ->
  length start_scores = length end_scores ->
  exists i j,
    index_of_first_max start_scores = Some i /\
    index_of_first_max end_scores = Some j /\
    find_answer_span [start_scores] [end_scores] = Ok (i, j + 1) /\
    step5_answer_span [start_scores] [end_scores] = Ok (i, j + 1).
Proof.
  intros Hs Hlen.
  pose proof (SpanFacts.same_length_nonempty _ _ Hs Hlen) as He.
  destruct (SpanFacts.answer_span_rows _ _ Hs He)
    as (i & j & _ & _ & Hi & Hj & Hf & Hc).
  exists (Z.of_nat i), (Z.of_nat j). auto.
Qed.

Lemma answer_span_first_maxima_witness :
  exists i j,
    index_of_first_max (scores [0.5; 0.9; 0.9]%float) = Some i /\
    index_of_first_max (scores [0.25; 0.125; 0.75]%float) = Some j /\
    find_answer_span [scores [0.5; 0.9; 0.9]%float]
                     [scores [0.25; 0.125; 0.75]%float] = Ok (i, j + 1) /\
    step5_answer_span [scores [0.5; 0.9; 0.9]%float]
                      [scores [0.25; 0.125; 0.75]%float] = Ok (i, j + 1).
Proof.
  apply answer_span_first_maxima; [discriminate | reflexivity].
Defined.

(** C2, as stated, fails: two score sequences of different lengths raise
    nothing. *)
Lemma unequal_lengths_not_rejected :
  length (scores [0.1]%float) <> length (scores [0.1; 0.9]%float) /\
  find_answer_span [scores [0.1]%float] [scores [0.1; 0.9]%float] = Ok (0, 2).
Proof.
  split; [discriminate | reflexivity].
Qed.

(** C2, amended. The extraction fails exactly when one of the two score
    sequences is empty, and then with the [ValueError] of the argmax of an
    empty array; two non-empty sequences, of equal length or not, raise
    nothing. *)
Theorem find_answer_span_raises_iff_empty (start_scores end_scores : list score) :
  match find_answer_span [start_scores] [end_scores] with
  | Raise e => e = ValueError /\ (start_scores = [] \/ end_scores = [])
  | Ok _ => start_scores <> [] /\ end_scores <> []
  end.
Proof.
  destruct start_scores as [ | x ss].
  - cbn. auto.
  - destruct end_scores as [ | y es].
    + destruct (ArgmaxFacts.argmax_row_first_max (x :: ss) ltac:(discriminate))
        as (i & _ & _ & Hn & _).
      unfold find_answer_span, start_index_of, end_index_of.
      rewrite Hn. cbn. auto.
    + destruct (SpanFacts.answer_span_rows (x :: ss) (y :: es)
                  ltac:(discriminate) ltac:(discriminate))
        as (i & j & _ & _ & _ & _ & Hf & _).
      rewrite Hf. split; discriminate.
Qed.

(** C3. When the chosen end is at or before the chosen start nothing is
    checked or re-ranked: the two indices are still the independent first
    maxima and the selected tokens are empty.  In particular start scores
    [0.1, 0.9] and end scores [0.9, 0.1] give the span (1, 1) without an
    error, and the slice of any token sequence at that span is empty. *)
Theorem inverted_span_is_kept :
  (forall (start_scores end_scores : list score) (tokens : list Z) (i j : Z),
     index_of_first_max start_scores = Some i ->
     index_of_first_max end_scores = Some j ->
     j + 1 <= i ->
     find_answer_span [start_scores] [end_scores] = Ok (i, j + 1) /\
     select_answer_tokens [start_scores] [end_scores] [tokens] = Ok []) /\
  find_answer_span [scores [0.1; 0.9]%float] [scores [0.9; 0.1]%float]
    = Ok (1, 1) /\
  (forall tokens : list Z,
     select_answer_tokens [scores [0.1; 0.9]%float] [scores [0.9; 0.1]%float]
       [tokens] = Ok []).
Proof.
  assert (G : forall (start_scores end_scores : list score) (tokens : list Z)
                (i j : Z),
     index_of_first_max start_scores = Some i ->
     index_of_first_max end_scores = Some j ->
     j + 1 <= i ->
     find_answer_span [start_scores] [end_scores] = Ok (i, j + 1) /\
     select_answer_tokens [start_scores] [end_scores] [tokens] = Ok []).
  { intros ss es tokens i j Hi Hj Hle.
    assert (Hs : ss <> []) by (intros ->; discriminate).
    assert (He : es <> []) by (intros ->; discriminate).
    destruct (SpanFacts.answer_span_rows _ _ Hs He)
      as (i' & j' & _ & _ & Hi' & Hj' & Hf & _).
    rewrite Hi in Hi'. rewrite Hj in Hj'.
    injection Hi' as ->. injection Hj' as ->.
    split; [exact Hf | ].
    unfold select_answer_tokens. rewrite Hf.
    unfold get_answer_tokens. cbn [getitem0 bind].
    now rewrite SliceFacts.py_slice_empty by lia. }
  split; [exact G | split; [reflexivity | ]].
  intros tokens. now apply (G _ _ tokens 1 0).
Qed.

(** C4, as stated, fails: on start scores [0.1, 0.9] and end scores
    [0.9, 0.1] the span is (1, 1), and 1 < 1 does not hold. *)
Lemma span_order_not_guaranteed :
  exists start_index end_index,
    find_answer_span [scores [0.1; 0.9]%float] [scores [0.9; 0.1]%float]
      = Ok (start_index, end_index) /\
    ~ (0 <= start_index < end_index
       /\ end_index <= Z.of_nat (length (scores [0.1; 0.9]%float))).
Proof.
  exists 1, 1. split; [reflexivity | lia].
Qed.

(** C4, amended. For every pair of non-empty score sequences of equal length
    L the span satisfies [0 <= start_index < L] and [0 < end_index <= L];
    the order of the two indices is not part of the invariant. *)
Theorem answer_span_within_sequence (start_scores end_scores : list score) :
  start_scores <> [] ->
  length start_scores = length end_scores ->
  exists start_index end_index,
    find_answer_span [start_scores] [end_scores] = Ok (start_index, end_index) /\
    0 <= start_index < Z.of_nat (length start_scores) /\
    0 < end_index <= Z.of_nat (length start_scores).
Proof.
  intros Hs Hlen.
  pose proof (SpanFacts.same_length_nonempty _ _ Hs Hlen) as He.
  destruct (SpanFacts.answer_span_rows _ _ Hs He)
    as (i & j & Hi & Hj & _ & _ & Hf & _).
  apply FirstMaxFacts.FirstMax_lt_length in Hi, Hj.
  exists (Z.of_nat i), (Z.of_nat j + 1). split; [exact Hf | lia].
Qed.

Lemma answer_span_within_sequence_witness :
  exists start_index end_index,
    find_answer_span [scores [0.1; 0.9]%float] [scores [0.9; 0.1]%float]
      = Ok (start_index, end_index) /\
    0 <= start_index < 2 /\ 0 < end_index <= 2.
Proof.
  apply (answer_span_within_sequence
           (scores [0.1; 0.9]%float) (scores [0.9; 0.1]%float));
    [discriminate | reflexivity].
Defined.

(** C5. For every non-empty sequence of end scores, of length L, the end
    index, argmax plus one, satisfies [1 <= end_index <= L]. *)
Theorem end_index_bounds (end_scores : list score) :
  end_scores <> [] ->
  exists end_index,
    end_index_of [end_scores] = Ok end_index /\
    1 <= end_index <= Z.of_nat (length end_scores).
Proof.
  intros He.
  destruct (ArgmaxFacts.argmax_row_first_max end_scores He)
    as (j & Hj & _ & Hn & _).
  apply FirstMaxFacts.FirstMax_lt_length in Hj.
  exists (Z.of_nat j + 1). unfold end_index_of. rewrite Hn.
  split; [reflexivity | lia].
Qed.

Lemma end_index_bounds_witness :
  exists end_index,
    end_index_of [scores [0.05; 0.1; 0.8]%float] = Ok end_index /\
    1 <= end_index <= 3.
Proof.
  apply (end_index_bounds (scores [0.05; 0.1; 0.8]%float)). discriminate.
Defined.

(** C8. Start scores [0.1, 0.9, 0.2] and end scores [0.05, 0.1, 0.8] give
    start index 1 and end index 3. *)
Theorem boundary_scenario :
  find_answer_span [scores [0.1; 0.9; 0.2]%float]
                   [scores [0.05; 0.1; 0.8]%float] = Ok (1, 3)
  /\ step5_answer_span [scores [0.1; 0.9; 0.2]%float]
                       [scores [0.05; 0.1; 0.8]%float] = Ok (1, 3).
Proof.
  split; reflexivity.
Qed.

(** C6. For every non-empty sequence of start scores, the start index is
    unchanged by any rearrangement [p] of the positions that moves only
    elements strictly below the maximum: every position whose element
    reaches the maximum, the first one in particular, stays where it is. *)
Theorem start_index_permutation_invariant
    (start_scores : list score) (p : list nat) (m : score) :
  maximum start_scores = Some m ->
  Permutation p (seq 0 (length start_scores)) ->
  (forall k x, nth_error start_scores k = Some x -> Score.ltb x m = false ->
               nth_error p k = Some k) ->
  start_index_of [permute p start_scores] = start_index_of [start_scores].
Proof.
  intros Hm Hp Hfix.
  assert (Hne : start_scores <> []) by (intros ->; discriminate).
  assert (Hne' : permute p start_scores <> []).
  { intros E. apply (f_equal (@length score)) in E.
    unfold permute in E. rewrite length_map in E.
    rewrite (Permutation_length Hp), length_seq in E.
    destruct start_scores; [congruence | discriminate]. }
  destruct (ArgmaxFacts.argmax_row_first_max _ Hne) as (i & Hi & _ & Hn & _).
  destruct (ArgmaxFacts.argmax_row_first_max _ Hne') as (j & Hj & _ & Hn' & _).
  pose proof (PermuteFacts.FirstMax_permute _ _ _ _ Hm Hp Hfix Hi) as Hi'.
  unfold start_index_of. rewrite Hn, Hn'.
  now rewrite (FirstMaxFacts.FirstMax_unique _ _ _ Hj Hi').
Qed.

Lemma start_index_permutation_invariant_witness :
  start_index_of [permute [2; 1; 0]%nat (scores [0.1; 0.9; 0.2]%float)]
  = start_index_of [scores [0.1; 0.9; 0.2]%float].
Proof.
  apply (start_index_permutation_invariant
           (scores [0.1; 0.9; 0.2]%float) [2; 1; 0]%nat (Prim2SF 0.9%float)).
  - reflexivity.
  - cbn. apply perm_trans with [1; 2; 0]%nat; [apply perm_swap | ].
    apply perm_trans with [1; 0; 2]%nat; [apply perm_skip, perm_swap | ].
    apply perm_swap.
  - intros k x Hx Hlt. destruct k as [ | [ | [ | k]]]; cbn in Hx.
    + injection Hx as <-. vm_compute in Hlt. discriminate.
    + reflexivity.
    + injection Hx as <-. vm_compute in Hlt. discriminate.
    + destruct k; discriminate.
Defined.

(** C9. The selection of the answer tokens is total: for every token sequence
    and every pair of non-empty score sequences, both decoders compute a span
    and the slice at that span raises nothing; it is empty when the end index
    is at or before the start index, and runs to the end of the tokens when
    the end index is beyond their length. *)
Theorem answer_tokens_total
    (tokens : list Z) (start_scores end_scores : list score) :
  start_scores <> [] -> end_scores <> [] ->
  exists start_index end_index answer_tokens,
    find_answer_span [start_scores] [end_scores] = Ok (start_index, end_index) /\
    step5_answer_span [start_scores] [end_scores] = Ok (start_index, end_index) /\
    select_answer_tokens [start_scores] [end_scores] [tokens] = Ok answer_tokens /\
    step5_step6 [start_scores] [end_scores] [tokens] = Ok answer_tokens /\
    (end_index <= start_index -> answer_tokens = []) /\
    (Z.of_nat (length tokens) < end_index ->
     answer_tokens = skipn (Z.to_nat start_index) tokens).
Proof.
  intros Hs He.
  destruct (SpanFacts.answer_span_rows _ _ Hs He)
    as (i & j & _ & _ & _ & _ & Hf & Hc).
  exists (Z.of_nat i), (Z.of_nat j + 1),
    (py_slice tokens (Z.of_nat i) (Z.of_nat j + 1)).
  unfold select_answer_tokens, step5_step6. rewrite Hf, Hc.
  repeat split.
  - intros H. apply SliceFacts.py_slice_empty; lia.
  - intros H. apply SliceFacts.py_slice_clamp; lia.
Qed.

Lemma answer_tokens_total_witness :
  exists start_index end_index answer_tokens,
    find_answer_span [scores [0.1; 0.9]%float] [scores [0.2; 0.3; 0.1; 0.7]%float]
      = Ok (start_index, end_index) /\
    step5_answer_span [scores [0.1; 0.9]%float] [scores [0.2; 0.3; 0.1; 0.7]%float]
      = Ok (start_index, end_index) /\
    select_answer_tokens [scores [0.1; 0.9]%float]
      [scores [0.2; 0.3; 0.1; 0.7]%float] [[101; 1327; 102]] = Ok answer_tokens /\
    step5_step6 [scores [0.1; 0.9]%float]
      [scores [0.2; 0.3; 0.1; 0.7]%float] [[101; 1327; 102]] = Ok answer_tokens /\
    (end_index <= start_index -> answer_tokens = []) /\
    (Z.of_nat (length [101; 1327; 102]) < end_index ->
     answer_tokens = skipn (Z.to_nat start_index) [101; 1327; 102]).
Proof.
  apply (answer_tokens_total [101; 1327; 102]
           (scores [0.1; 0.9]%float) (scores [0.2; 0.3; 0.1; 0.7]%float));
    discriminate.
Defined.

(** C10. The cells of Step 5 and Step 6 and the function [answer_question]
    decode alike: on the same score arrays and the same token ids they
    compute the same span and select the same answer tokens (and fail on the
    same inputs). *)
Theorem inline_and_function_agree
    (start_scores end_scores : ndarray score) (input_ids : ndarray Z) :
  same_outcome (step5_answer_span start_scores end_scores)
               (find_answer_span start_scores end_scores) /\
  same_outcome (step5_step6 start_scores end_scores input_ids)
               (select_answer_tokens start_scores end_scores input_ids).
Proof.
  unfold step5_step6, select_answer_tokens, step5_answer_span,
    find_answer_span, step5_start_index, step5_end_index, start_index_of,
    end_index_of, Torch.argmax, Numpy.argmax.
  pose proof (ArgmaxFacts.argmax_flat_agree (ravel start_scores)) as Hs.
  pose proof (ArgmaxFacts.argmax_flat_agree (ravel end_scores)) as He.
  destruct (Torch.argmax_flat (ravel start_scores)) as [s | ],
    (Numpy.argmax_flat (ravel start_scores)) as [s' | ];
    cbn in Hs; try contradiction; cbn [bind]; [subst s' | now split].
  destruct (Torch.argmax_flat (ravel end_scores)) as [e | ],
    (Numpy.argmax_flat (ravel end_scores)) as [e' | ];
    cbn in He; try contradiction; cbn [bind]; [subst e' | now split].
  split; [reflexivity | ].
  unfold step6_answer_tokens, get_answer_tokens.
  destruct (getitem0 input_ids); cbn; [reflexivity | exact I].
Qed.

(** ** Further properties of the decoding *)

Module SliceMore.
Import SliceFacts.

(** With bounds that do not count from the end, the slice drops [start]
    elements and keeps at most [stop - start] of the rest. *)
Lemma py_slice_nonneg {A : Type} (l : list A) start stop :
  0 <= start -> 0 <= stop ->
  py_slice l start stop
  = firstn (Z.to_nat (stop - start)) (skipn (Z.to_nat start) l).
Proof.
  intros Hs He. unfold py_slice. cbv zeta.
  rewrite (adjust_index_nonneg _ start Hs (Nat2Z.is_nonneg _)).
  rewrite (adjust_index_nonneg _ stop He (Nat2Z.is_nonneg _)).
  destruct (Z.le_gt_cases start (Z.of_nat (length l))) as [L | G].
  - rewrite (Z.min_l start) by lia.
    destruct (Z.le_gt_cases stop (Z.of_nat (length l))) as [L' | G'].
    + now rewrite Z.min_l by lia.
    + rewrite Z.min_r by lia.
      rewrite !firstn_all2; [reflexivity | | ]; rewrite length_skipn; lia.
  - rewrite (Z.min_r start) by lia.
    rewrite !skipn_all2 by lia. now rewrite !firstn_nil.
Qed.

Lemma slice_splits {A : Type} (l : list A) (n k : nat) :
  l = firstn k l ++ firstn n (skipn k l) ++ skipn n (skipn k l).
Proof.
  now rewrite (firstn_skipn n (skipn k l)), (firstn_skipn k l).
Qed.

Lemma nth_error_slice {A : Type} (l : list A) (n k i : nat) :
  (i < n)%nat ->
  nth_error (firstn n (skipn k l)) i = nth_error l (k + i).
Proof.
  intros H. rewrite nth_error_firstn.
  destruct (Nat.ltb_spec i n); [apply nth_error_skipn | lia].
Qed.

(** Elements appended beyond the end bound do not show in the slice. *)
Lemma py_slice_app {A : Type} (l pad : list A) start stop :
  0 <= start -> 0 <= stop <= Z.of_nat (length l) ->
  py_slice (l ++ pad) start stop = py_slice l start stop.
Proof.
  intros Hs He. rewrite !py_slice_nonneg by lia.
  destruct (Z.le_gt_cases start stop) as [L | G].
  - rewrite skipn_app, firstn_app, length_skipn.
    replace (Z.to_nat (stop - start) - (length l - Z.to_nat start))%nat
      with 0%nat by lia.
    cbn [firstn]. apply app_nil_r.
  - now replace (Z.to_nat (stop - start)) with 0%nat by lia.
Qed.

End SliceMore.

Module FirstMaxMore.
Import Score ScoreFacts FirstMaxFacts.

(** Both argmax functions return the position of the first maximum. *)
Lemma FirstMax_argmax_flat l i :
  FirstMax l i ->
  Numpy.argmax_flat l = Ok (Z.of_nat i) /\
  Torch.argmax_flat l = Ok (Z.of_nat i) /\
  index_of_first_max l = Some (Z.of_nat i).
Proof.
  intros Hi.
  assert (Hl : l <> []).
  { apply FirstMax_lt_length in Hi. destruct l; [cbn in Hi; lia | discriminate]. }
  destruct (numpy_argmax_flat_spec l Hl) as (a & Ha & Fa).
  destruct (torch_argmax_flat_spec l Hl) as (b & Hb & Fb).
  destruct (index_of_first_max_spec l Hl) as (c & Hc & Fc).
  rewrite (FirstMax_unique l a i Fa Hi) in Ha.
  rewrite (FirstMax_unique l b i Fb Hi) in Hb.
  rewrite (FirstMax_unique l c i Fc Hi) in Hc.
  auto.
Qed.

Lemma index_of_first_max_FirstMax l i :
  index_of_first_max l = Some i ->
  exists n, i = Z.of_nat n /\ FirstMax l n.
Proof.
  intros H.
  assert (Hl : l <> []) by (intros ->; discriminate).
  destruct (index_of_first_max_spec l Hl) as (n & Hn & Fn).
  exists n. split; [congruence | exact Fn].
Qed.

(** The maximum computed by folding, against the element at the first
    maximum: each is at most the other. *)
Lemma maximum_FirstMax l m i x :
  maximum l = Some m -> FirstMax l i -> nth_error l i = Some x ->
  leb m x = true /\ leb x m = true.
Proof.
  intros Hm (x' & Hx' & Hmax & _) Hx.
  rewrite Hx in Hx'. injection Hx' as <-.
  destruct l as [ | z l]; [discriminate | ].
  cbn in Hm. injection Hm as <-.
  destruct (fold_max_spec l z) as (H1 & H2 & H3).
  split.
  - apply Hmax. destruct H3 as [-> | H3]; [now left | now right].
  - apply nth_error_In in Hx. destruct Hx as [<- | Hx]; auto.
Qed.

(** Appending scores that are not above the maximum keeps the first
    maximum. *)
Lemma FirstMax_app l pad m i :
  maximum l = Some m -> all_at_most m pad ->
  FirstMax l i -> FirstMax (l ++ pad) i.
Proof.
  intros Hm Hpad Hi.
  pose proof (FirstMax_lt_length _ _ Hi) as Hlen.
  destruct Hi as (x & Hx & Hmax & Hbelow).
  assert (Hmx : leb m x = true).
  { apply (maximum_FirstMax l m i x Hm); [ | exact Hx].
    exists x. auto. }
  exists x. split; [ | split].
  - now rewrite nth_error_app1.
  - intros y Hy. apply in_app_or in Hy. destruct Hy as [Hy | Hy]; [auto | ].
    apply leb_trans with m; [ | exact Hmx].
    unfold all_at_most in Hpad. rewrite Forall_forall in Hpad. auto.
  - intros k y Hk Hy. rewrite nth_error_app1 in Hy by lia.
    now apply (Hbelow k).
Qed.

(** Only the order of the scores matters. *)
Lemma FirstMax_alike l l' i :
  order_alike l l' -> FirstMax l i -> FirstMax l' i.
Proof.
  intros [Hlen Hord] Hi.
  pose proof (FirstMax_lt_length _ _ Hi) as Hil.
  destruct Hi as (x & Hx & Hmax & Hbelow).
  destruct (nth_error l' i) as [x' | ] eqn:Hx';
    [ | apply nth_error_None in Hx'; lia].
  exists x'. split; [exact Hx' | split].
  - intros y' Hy'. apply In_nth_error in Hy'. destruct Hy' as (k & Hk).
    destruct (nth_error l k) as [y | ] eqn:Hy.
    + rewrite <- (Hord k i y x y' x' Hy Hx Hk Hx').
      apply Hmax. eapply nth_error_In; eauto.
    + apply nth_error_None in Hy.
      assert (nth_error l' k <> None) by congruence.
      apply nth_error_Some in H. lia.
  - intros k y' Hk Hy'.
    destruct (nth_error l k) as [y | ] eqn:Hy;
      [ | apply nth_error_None in Hy; lia].
    unfold ltb. rewrite <- (Hord i k x y x' y' Hx Hy Hx' Hy').
    apply (Hbelow k y Hk Hy).
Qed.

(** The first NaN is the first maximum. *)
Lemma FirstMax_first_nan l k :
  nth_error l k = Some S754_nan ->
  (forall k' y, (k' < k)%nat -> nth_error l k' = Some y -> is_nan y = false) ->
  FirstMax l k.
Proof.
  intros Hk Hbefore. exists S754_nan. split; [exact Hk | split].
  - intros y _. apply leb_nan.
  - intros k' y Hlt Hy. pose proof (Hbefore k' y Hlt Hy) as Hn.
    unfold ltb, leb. rewrite Hn. now destruct y.
Qed.

End FirstMaxMore.

Module DecodeFacts.
Import FirstMaxFacts FirstMaxMore ArgmaxFacts SliceMore.

(** The span, from the first maxima of the flattened score arrays. *)
Lemma span_of_first_maxima (S E : ndarray score) (i j : nat) :
  FirstMax (ravel S) i -> FirstMax (ravel E) j ->
  find_answer_span S E = Ok (Z.of_nat i, Z.of_nat j + 1) /\
  step5_answer_span S E = Ok (Z.of_nat i, Z.of_nat j + 1).
Proof.
  intros Hi Hj.
  destruct (FirstMax_argmax_flat _ _ Hi) as (Hni & Hti & _).
  destruct (FirstMax_argmax_flat _ _ Hj) as (Hnj & Htj & _).
  unfold find_answer_span, start_index_of, end_index_of, Numpy.argmax,
    step5_answer_span, step5_start_index, step5_end_index, Torch.argmax.
  rewrite Hni, Hnj, Hti, Htj. split; reflexivity.
Qed.

Lemma span_of_first_maxima_rows (ss es : list score) (i j : nat) :
  FirstMax ss i -> FirstMax es j ->
  find_answer_span [ss] [es] = Ok (Z.of_nat i, Z.of_nat j + 1) /\
  step5_answer_span [ss] [es] = Ok (Z.of_nat i, Z.of_nat j + 1).
Proof.
  intros Hi Hj. apply span_of_first_maxima; now rewrite ravel_row.
Qed.

(** The answer tokens, once the span is known. *)
Lemma tokens_of_span (S E : ndarray score) (tokens : list Z)
    (rest : ndarray Z) (s e : Z) :
  find_answer_span S E = Ok (s, e) ->
  select_answer_tokens S E (tokens :: rest) = Ok (py_slice tokens s e).
Proof.
  intros H. unfold select_answer_tokens. now rewrite H.
Qed.

Lemma step_tokens_of_span (S E : ndarray score) (tokens : list Z)
    (rest : ndarray Z) (s e : Z) :
  step5_answer_span S E = Ok (s, e) ->
  step5_step6 S E (tokens :: rest) = Ok (py_slice tokens s e).
Proof.
  intros H. unfold step5_step6. now rewrite H.
Qed.

Lemma first_max_exists (l : list score) :
  l <> [] -> exists i, FirstMax l i.
Proof.
  intros H. destruct (argmax_row_first_max l H) as (i & Hi & _).
  now exists i.
Qed.

Lemma argmax_alike (l l' : list score) :
  order_alike l l' ->
  Numpy.argmax [l] = Numpy.argmax [l'] /\ Torch.argmax [l] = Torch.argmax [l'].
Proof.
  intros H. unfold Numpy.argmax, Torch.argmax. rewrite !ravel_row.
  destruct l as [ | x l].
  - destruct H as [Hlen _]. destruct l'; [split; reflexivity | discriminate].
  - destruct (first_max_exists (x :: l) ltac:(discriminate)) as (i & Hi).
    pose proof (FirstMax_alike _ _ _ H Hi) as Hi'.
    destruct (FirstMax_argmax_flat _ _ Hi) as (-> & -> & _).
    destruct (FirstMax_argmax_flat _ _ Hi') as (-> & -> & _).
    split; reflexivity.
Qed.

Lemma maximum_nonempty (l : list score) (m : score) :
  maximum l = Some m -> l <> [].
Proof. intros H ->. discriminate. Qed.

End DecodeFacts.

(** [answer_question] is its decoding lines between the calls of the
    collaborators. *)
Lemma answer_question_steps (compiled_model : CompiledModel)
    (tokenizer : Tokenizer) (question context : string) :
  let inputs := tokenize tokenizer question context answer_question_kwargs in
  answer_question compiled_model tokenizer question context
  = (answer_tokens <- decode_outputs (infer_new_request compiled_model inputs)
                        (input_ids inputs) ;;
     Ok (decode tokenizer answer_tokens)).
Proof.
  intros inputs. unfold answer_question, decode_outputs.
  fold answer_question_kwargs. fold inputs.
  now destruct (unpack2 (infer_new_request compiled_model inputs)) as [[S E] | ].
Qed.

(** X1. Once the tokenizer and the compiled model have returned, the
    decoding lines of [answer_question] raise [ValueError] exactly when the
    inference result does not consist of two arrays or one of the two score
    arrays is empty; they raise [IndexError] exactly when there are two
    non-empty score arrays and the token ids have no row; and they produce
    answer tokens exactly when there are two non-empty score arrays and the
    token ids have a first row. *)
Theorem decode_outputs_failures (values : list (ndarray score))
    (input_ids : ndarray Z) :
  (decode_outputs values input_ids = Raise ValueError <->
     (forall S E, values <> [S; E]) \/
     (exists S E, values = [S; E] /\ (ravel S = [] \/ ravel E = []))) /\
  (decode_outputs values input_ids = Raise IndexError <->
     exists S E,
       values = [S; E] /\ ravel S <> [] /\ ravel E <> [] /\ input_ids = []) /\
  ((exists answer_tokens, decode_outputs values input_ids = Ok answer_tokens) <->
     exists S E row rest,
       values = [S; E] /\ ravel S <> [] /\ ravel E <> [] /\
       input_ids = row :: rest).
Proof.
  assert (Two : forall S E : ndarray score,
            ~ (forall S' E' : ndarray score, [S; E] <> [S'; E'])).
  { intros S E H. now apply (H S E). }
  unfold decode_outputs.
  destruct values as [ | S [ | E [ | X values']]]; cbn [unpack2 bind].
  1, 2, 4:
    (split; [ | split]);
    (split;
     [ try discriminate; try (intros [t Ht]; discriminate);
       try (intros _; left; intros S' E'; discriminate)
     | try reflexivity;
       try (intros (S' & E' & H & _); discriminate);
       try (intros (S' & E' & r & r' & H & _); discriminate) ]).
  destruct (ravel S) as [ | x ss] eqn:HS.
  { assert (R : select_answer_tokens S E input_ids = Raise ValueError).
    { unfold select_answer_tokens, find_answer_span, start_index_of,
        Numpy.argmax. now rewrite HS. }
    rewrite R. split; [ | split]; split; try discriminate; try reflexivity.
    - intros _. right. exists S, E. rewrite HS. auto.
    - intros (S' & E' & H & H1 & _). injection H as <- <-. congruence.
    - intros [t Ht]. discriminate.
    - intros (S' & E' & r & r' & H & H1 & _). injection H as <- <-.
      congruence. }
  destruct (ravel E) as [ | y es] eqn:HE.
  { assert (R : select_answer_tokens S E input_ids = Raise ValueError).
    { destruct (DecodeFacts.first_max_exists (x :: ss) ltac:(discriminate))
        as (i & Hi).
      destruct (FirstMaxMore.FirstMax_argmax_flat _ _ Hi) as (Hn & _).
      unfold select_answer_tokens, find_answer_span, start_index_of,
        end_index_of, Numpy.argmax. now rewrite HS, HE, Hn. }
    rewrite R. split; [ | split]; split; try discriminate; try reflexivity.
    - intros _. right. exists S, E. rewrite HE. auto.
    - intros (S' & E' & H & _ & H2 & _). injection H as <- <-. congruence.
    - intros [t Ht]. discriminate.
    - intros (S' & E' & r & r' & H & _ & H2 & _). injection H as <- <-.
      congruence. }
  destruct (DecodeFacts.first_max_exists (x :: ss) ltac:(discriminate))
    as (i & Hi).
  destruct (DecodeFacts.first_max_exists (y :: es) ltac:(discriminate))
    as (j & Hj).
  rewrite <- HS in Hi. rewrite <- HE in Hj.
  destruct (DecodeFacts.span_of_first_maxima S E i j Hi Hj) as [Hf _].
  unfold select_answer_tokens. rewrite Hf. cbn [bind].
  unfold get_answer_tokens.
  destruct input_ids as [ | row rest]; cbn [getitem0 bind];
    (split; [ | split]); split; try discriminate; try reflexivity.
  - intros [H | (S' & E' & H & [H1 | H1])].
    + destruct (Two S E H).
    + injection H as <- <-. congruence.
    + injection H as <- <-. congruence.
  - intros _. exists S, E. rewrite HS, HE. repeat split; discriminate.
  - intros [t Ht]. discriminate.
  - intros (S' & E' & r & r' & _ & _ & _ & H). discriminate.
  - intros [H | (S' & E' & H & [H1 | H1])].
    + destruct (Two S E H).
    + injection H as <- <-. congruence.
    + injection H as <- <-. congruence.
  - intros (S' & E' & _ & _ & _ & H). discriminate.
  - intros _. exists S, E, row, rest. rewrite HS, HE.
    repeat split; discriminate.
  - intros _. eexists. reflexivity.
Qed.

(** X2. When the compiled model returns two score arrays, the answer of
    [answer_question] is the decoding of the tokens of the first row from the
    first maximum of the start scores up to and including the first maximum
    of the end scores. *)
Theorem answer_question_answer (compiled_model : CompiledModel)
    (tokenizer : Tokenizer) (question context : string)
    (S E : ndarray score) (row : list Z) (rest : ndarray Z) (i j : Z) :
  let inputs := tokenize tokenizer question context answer_question_kwargs in
  infer_new_request compiled_model inputs = [S; E] ->
  index_of_first_max (ravel S) = Some i ->
  index_of_first_max (ravel E) = Some j ->
  input_ids inputs = row :: rest ->
  answer_question compiled_model tokenizer question context
  = Ok (decode tokenizer (py_slice row i (j + 1))).
Proof.
  intros inputs Hout Hi Hj Hids.
  apply FirstMaxMore.index_of_first_max_FirstMax in Hi, Hj.
  destruct Hi as (n & -> & Hn), Hj as (k & -> & Hk).
  destruct (DecodeFacts.span_of_first_maxima S E n k Hn Hk) as [Hf _].
  unfold answer_question. fold answer_question_kwargs. fold inputs.
  rewrite Hout. cbn [unpack2 bind]. rewrite Hids.
  now rewrite (DecodeFacts.tokens_of_span _ _ _ _ _ _ Hf).
Qed.

Lemma answer_question_answer_witness :
  answer_question
    (Toy.compiled_model [[scores [0.1; 0.9; 0.3; 0.2]%float];
                         [scores [0.1; 0.2; 0.8; 0.3]%float]])
    (Toy.tokenizer [101; 1327; 1110; 102]) "What is ONNX?" "ONNX is open."
  = Ok "What is"%string.
Proof.
  exact (answer_question_answer
           (Toy.compiled_model [[scores [0.1; 0.9; 0.3; 0.2]%float];
                                [scores [0.1; 0.2; 0.8; 0.3]%float]])
           (Toy.tokenizer [101; 1327; 1110; 102])
           "What is ONNX?" "ONNX is open."
           _ _ ([101; 1327; 1110; 102] ++ repeat 0 508) [] 1 2
           eq_refl eq_refl eq_refl eq_refl).
Defined.

(** X3. The answer is extractive: for non-empty scores the selected tokens
    are one contiguous block of the token row, starting at the start index
    (or at the end of the row when the start index lies beyond it) and no
    longer than the span. *)
Theorem answer_tokens_contiguous
    (tokens : list Z) (start_scores end_scores : list score) :
  start_scores <> [] -> end_scores <> [] ->
  exists start_index end_index answer_tokens before after,
    find_answer_span [start_scores] [end_scores] = Ok (start_index, end_index) /\
    select_answer_tokens [start_scores] [end_scores] [tokens] = Ok answer_tokens /\
    tokens = before ++ answer_tokens ++ after /\
    Z.of_nat (length before) = Z.min start_index (Z.of_nat (length tokens)) /\
    Z.of_nat (length answer_tokens) <= Z.max 0 (end_index - start_index).
Proof.
  intros Hs He.
  destruct (DecodeFacts.first_max_exists _ Hs) as (i & Hi).
  destruct (DecodeFacts.first_max_exists _ He) as (j & Hj).
  destruct (DecodeFacts.span_of_first_maxima_rows _ _ i j Hi Hj) as [Hf _].
  pose proof (DecodeFacts.tokens_of_span _ _ tokens [] _ _ Hf) as Ht.
  rewrite SliceMore.py_slice_nonneg in Ht by lia.
  set (n := Z.to_nat (Z.of_nat j + 1 - Z.of_nat i)) in *.
  set (k := Z.to_nat (Z.of_nat i)) in *.
  exists (Z.of_nat i), (Z.of_nat j + 1), (firstn n (skipn k tokens)),
    (firstn k tokens), (skipn n (skipn k tokens)).
  split; [exact Hf | split; [exact Ht | split; [ | split]]].
  - apply SliceMore.slice_splits.
  - rewrite length_firstn. lia.
  - rewrite length_firstn, length_skipn. lia.
Qed.

Lemma answer_tokens_contiguous_witness :
  exists start_index end_index answer_tokens before after,
    find_answer_span [scores [0.1; 0.9; 0.3; 0.2]%float]
                     [scores [0.1; 0.2; 0.8; 0.3]%float]
      = Ok (start_index, end_index) /\
    select_answer_tokens [scores [0.1; 0.9; 0.3; 0.2]%float]
                         [scores [0.1; 0.2; 0.8; 0.3]%float]
                         [[101; 1327; 1110; 102]] = Ok answer_tokens /\
    [101; 1327; 1110; 102] = before ++ answer_tokens ++ after /\
    Z.of_nat (length before) = Z.min start_index 4 /\
    Z.of_nat (length answer_tokens) <= Z.max 0 (end_index - start_index).
Proof.
  apply (answer_tokens_contiguous [101; 1327; 1110; 102]
           (scores [0.1; 0.9; 0.3; 0.2]%float)
           (scores [0.1; 0.2; 0.8; 0.3]%float)); discriminate.
Defined.

(** X4. When the token row and the two score sequences have the same length,
    as they do in the notebook, nothing is clamped: the answer has exactly
    [end_index - start_index] tokens (none when that is negative), and its
    token number [k] is the token at position [start_index + k]. *)
Theorem answer_tokens_positions
    (tokens : list Z) (start_scores end_scores : list score) :
  start_scores <> [] ->
  length start_scores = length tokens ->
  length end_scores = length tokens ->
  exists start_index end_index answer_tokens,
    find_answer_span [start_scores] [end_scores] = Ok (start_index, end_index) /\
    select_answer_tokens [start_scores] [end_scores] [tokens] = Ok answer_tokens /\
    Z.of_nat (length answer_tokens) = Z.max 0 (end_index - start_index) /\
    forall k, (k < length answer_tokens)%nat ->
      nth_error answer_tokens k = nth_error tokens (Z.to_nat start_index + k).
Proof.
  intros Hs Hls Hle.
  assert (He : end_scores <> []).
  { destruct start_scores, end_scores, tokens; cbn in *; congruence. }
  destruct (DecodeFacts.first_max_exists _ Hs) as (i & Hi).
  destruct (DecodeFacts.first_max_exists _ He) as (j & Hj).
  destruct (DecodeFacts.span_of_first_maxima_rows _ _ i j Hi Hj) as [Hf _].
  pose proof (DecodeFacts.tokens_of_span _ _ tokens [] _ _ Hf) as Ht.
  rewrite SliceMore.py_slice_nonneg in Ht by lia.
  apply FirstMaxFacts.FirstMax_lt_length in Hi, Hj.
  set (n := Z.to_nat (Z.of_nat j + 1 - Z.of_nat i)) in *.
  set (k := Z.to_nat (Z.of_nat i)) in *.
  exists (Z.of_nat i), (Z.of_nat j + 1), (firstn n (skipn k tokens)).
  split; [exact Hf | split; [exact Ht | split]].
  - rewrite length_firstn, length_skipn. lia.
  - intros q Hq. rewrite length_firstn in Hq.
    apply SliceMore.nth_error_slice. lia.
Qed.

Lemma answer_tokens_positions_witness :
  exists start_index end_index answer_tokens,
    find_answer_span [scores [0.1; 0.9; 0.3; 0.2]%float]
                     [scores [0.1; 0.2; 0.8; 0.3]%float]
      = Ok (start_index, end_index) /\
    select_answer_tokens [scores [0.1; 0.9; 0.3; 0.2]%float]
                         [scores [0.1; 0.2; 0.8; 0.3]%float]
                         [[101; 1327; 1110; 102]] = Ok answer_tokens /\
    Z.of_nat (length answer_tokens) = Z.max 0 (end_index - start_index) /\
    forall k, (k < length answer_tokens)%nat ->
      nth_error answer_tokens k
      = nth_error [101; 1327; 1110; 102] (Z.to_nat start_index + k).
Proof.
  apply (answer_tokens_positions [101; 1327; 1110; 102]
           (scores [0.1; 0.9; 0.3; 0.2]%float)
           (scores [0.1; 0.2; 0.8; 0.3]%float));
    [discriminate | reflexivity | reflexivity].
Defined.

(** X5. When the token row is at least as long as the start scores, the
    answer is empty exactly when the first maximum of the end scores lies
    strictly before the first maximum of the start scores. *)
Theorem answer_empty_iff
    (tokens : list Z) (start_scores end_scores : list score) (i j : Z) :
  index_of_first_max start_scores = Some i ->
  index_of_first_max end_scores = Some j ->
  (length start_scores <= length tokens)%nat ->
  exists answer_tokens,
    select_answer_tokens [start_scores] [end_scores] [tokens] = Ok answer_tokens /\
    (answer_tokens = [] <-> j < i).
Proof.
  intros Hi Hj Hlen.
  apply FirstMaxMore.index_of_first_max_FirstMax in Hi, Hj.
  destruct Hi as (n & -> & Hn), Hj as (k & -> & Hk).
  destruct (DecodeFacts.span_of_first_maxima_rows _ _ n k Hn Hk) as [Hf _].
  pose proof (DecodeFacts.tokens_of_span _ _ tokens [] _ _ Hf) as Ht.
  rewrite SliceMore.py_slice_nonneg in Ht by lia.
  apply FirstMaxFacts.FirstMax_lt_length in Hn.
  eexists. split; [exact Ht | ].
  rewrite <- length_zero_iff_nil, length_firstn, length_skipn. lia.
Qed.

Lemma answer_empty_iff_witness :
  exists answer_tokens,
    select_answer_tokens [scores [0.1; 0.9]%float] [scores [0.9; 0.1]%float]
      [[101; 102]] = Ok answer_tokens /\
    (answer_tokens = [] <-> 0 < 1).
Proof.
  apply (answer_empty_iff [101; 102] (scores [0.1; 0.9]%float)
           (scores [0.9; 0.1]%float) 1 0);
    [reflexivity | reflexivity | cbn; lia].
Defined.

(** X6. The span depends only on how the scores are ordered: two pairs of
    score sequences that order their positions alike (logits and their
    softmax, the scores of the torch model and those of a compiled model that
    preserves their order) give the same outcome, in [answer_question] and in
    the cell of Step 5. *)
Theorem span_depends_on_order_only
    (start_scores end_scores start_scores' end_scores' : list score) :
  order_alike start_scores start_scores' ->
  order_alike end_scores end_scores' ->
  find_answer_span [start_scores] [end_scores]
  = find_answer_span [start_scores'] [end_scores'] /\
  step5_answer_span [start_scores] [end_scores]
  = step5_answer_span [start_scores'] [end_scores'].
Proof.
  intros Hs He.
  destruct (DecodeFacts.argmax_alike _ _ Hs) as [Hns Hts].
  destruct (DecodeFacts.argmax_alike _ _ He) as [Hne Hte].
  unfold find_answer_span, start_index_of, end_index_of,
    step5_answer_span, step5_start_index, step5_end_index.
  now rewrite Hns, Hne, Hts, Hte.
Qed.

Lemma span_depends_on_order_only_witness :
  find_answer_span [scores [0.1; 0.9; 0.2]%float] [scores [0.05; 0.1; 0.8]%float]
  = find_answer_span [scores [-3.5; 7.25; 0.5]%float]
                     [scores [1.0; 2.0; 3.0]%float] /\
  step5_answer_span [scores [0.1; 0.9; 0.2]%float] [scores [0.05; 0.1; 0.8]%float]
  = step5_answer_span [scores [-3.5; 7.25; 0.5]%float]
                      [scores [1.0; 2.0; 3.0]%float].
Proof.
  apply span_depends_on_order_only.
  - split; [reflexivity | ].
    intros i j x y x' y' Hx Hy Hx' Hy'.
    destruct i as [ | [ | [ | i]]]; cbn in Hx, Hx';
      try (destruct i; discriminate);
      destruct j as [ | [ | [ | j]]]; cbn in Hy, Hy';
      try (destruct j; discriminate);
      injection Hx as <-; injection Hy as <-;
      injection Hx' as <-; injection Hy' as <-; reflexivity.
  - split; [reflexivity | ].
    intros i j x y x' y' Hx Hy Hx' Hy'.
    destruct i as [ | [ | [ | i]]]; cbn in Hx, Hx';
      try (destruct i; discriminate);
      destruct j as [ | [ | [ | j]]]; cbn in Hy, Hy';
      try (destruct j; discriminate);
      injection Hx as <-; injection Hy as <-;
      injection Hx' as <-; injection Hy' as <-; reflexivity.
Defined.

(** X7. Padding is harmless when it does not score above the maximum: if the
    start and end scores are extended by scores that are not above their
    maxima, and the token row by as many padding tokens as one likes, the span
    and the answer tokens are those of the unpadded input (the token row
    being at least as long as the end scores). *)
Theorem padding_keeps_answer
    (tokens pad_tokens : list Z)
    (start_scores end_scores pad_start pad_end : list score)
    (max_start max_end : score) :
  maximum start_scores = Some max_start -> all_at_most max_start pad_start ->
  maximum end_scores = Some max_end -> all_at_most max_end pad_end ->
  (length end_scores <= length tokens)%nat ->
  find_answer_span [start_scores ++ pad_start] [end_scores ++ pad_end]
  = find_answer_span [start_scores] [end_scores] /\
  select_answer_tokens [start_scores ++ pad_start] [end_scores ++ pad_end]
    [tokens ++ pad_tokens]
  = select_answer_tokens [start_scores] [end_scores] [tokens].
Proof.
  intros Hms Hps Hme Hpe Hlen.
  destruct (DecodeFacts.first_max_exists _
              (DecodeFacts.maximum_nonempty _ _ Hms)) as (i & Hi).
  destruct (DecodeFacts.first_max_exists _
              (DecodeFacts.maximum_nonempty _ _ Hme)) as (j & Hj).
  pose proof (FirstMaxMore.FirstMax_app _ _ _ _ Hms Hps Hi) as Hi'.
  pose proof (FirstMaxMore.FirstMax_app _ _ _ _ Hme Hpe Hj) as Hj'.
  destruct (DecodeFacts.span_of_first_maxima_rows _ _ i j Hi Hj) as [Hf _].
  destruct (DecodeFacts.span_of_first_maxima_rows _ _ i j Hi' Hj') as [Hf' _].
  split; [now rewrite Hf, Hf' | ].
  rewrite (DecodeFacts.tokens_of_span _ _ _ [] _ _ Hf).
  rewrite (DecodeFacts.tokens_of_span _ _ _ [] _ _ Hf').
  apply FirstMaxFacts.FirstMax_lt_length in Hj.
  now rewrite SliceMore.py_slice_app by lia.
Qed.

Lemma padding_keeps_answer_witness :
  find_answer_span [scores [0.1; 0.9; 0.3; 0.2]%float ++ scores [-9.0; 0.9]%float]
                   [scores [0.1; 0.2; 0.8; 0.3]%float ++ scores [-9.0; -9.0]%float]
  = find_answer_span [scores [0.1; 0.9; 0.3; 0.2]%float]
                     [scores [0.1; 0.2; 0.8; 0.3]%float] /\
  select_answer_tokens
    [scores [0.1; 0.9; 0.3; 0.2]%float ++ scores [-9.0; 0.9]%float]
    [scores [0.1; 0.2; 0.8; 0.3]%float ++ scores [-9.0; -9.0]%float]
    [[101; 1327; 1110; 102] ++ [0; 0]]
  = select_answer_tokens [scores [0.1; 0.9; 0.3; 0.2]%float]
      [scores [0.1; 0.2; 0.8; 0.3]%float] [[101; 1327; 1110; 102]].
Proof.
  apply (padding_keeps_answer [101; 1327; 1110; 102] [0; 0]
           (scores [0.1; 0.9; 0.3; 0.2]%float)
           (scores [0.1; 0.2; 0.8; 0.3]%float)
           (scores [-9.0; 0.9]%float) (scores [-9.0; -9.0]%float)
           (Prim2SF 0.9%float) (Prim2SF 0.8%float)).
  - reflexivity.
  - repeat constructor.
  - reflexivity.
  - repeat constructor.
  - cbn. lia.
Defined.

(** X8. A NaN among the scores wins: the index both decoders choose is the
    position of the first NaN. *)
Theorem first_nan_is_chosen (l : list score) (k : nat) :
  nth_error l k = Some S754_nan ->
  (forall k' y, (k' < k)%nat -> nth_error l k' = Some y -> is_nan y = false) ->
  start_index_of [l] = Ok (Z.of_nat k) /\
  end_index_of [l] = Ok (Z.of_nat k + 1) /\
  step5_start_index [l] = Ok (Z.of_nat k) /\
  step5_end_index [l] = Ok (Z.of_nat k + 1).
Proof.
  intros Hk Hbefore.
  pose proof (FirstMaxMore.FirstMax_first_nan l k Hk Hbefore) as Hmax.
  destruct (FirstMaxMore.FirstMax_argmax_flat _ _ Hmax) as (Hn & Ht & _).
  unfold start_index_of, end_index_of, step5_start_index, step5_end_index,
    Numpy.argmax, Torch.argmax.
  rewrite ArgmaxFacts.ravel_row, Hn, Ht. repeat split.
Qed.

Lemma first_nan_is_chosen_witness :
  start_index_of [scores [0.5; nan; 7.0; nan]%float] = Ok 1 /\
  end_index_of [scores [0.5; nan; 7.0; nan]%float] = Ok 2 /\
  step5_start_index [scores [0.5; nan; 7.0; nan]%float] = Ok 1 /\
  step5_end_index [scores [0.5; nan; 7.0; nan]%float] = Ok 2.
Proof.
  apply (first_nan_is_chosen (scores [0.5; nan; 7.0; nan]%float) 1).
  - reflexivity.
  - intros k' y Hlt Hy. destruct k' as [ | k']; [ | lia].
    cbn in Hy. injection Hy as <-. reflexivity.
Defined.

(** X9. When no score is above the first one (scores that are all equal, in
    particular), the span is (0, 1) and the answer is the first token of the
    row, in both decoders. *)
Theorem leading_maximum_selects_first_token
    (x y : score) (start_scores end_scores : list score)
    (t : Z) (tokens : list Z) :
  all_at_most x start_scores -> all_at_most y end_scores ->
  find_answer_span [x :: start_scores] [y :: end_scores] = Ok (0, 1) /\
  select_answer_tokens [x :: start_scores] [y :: end_scores] [t :: tokens]
  = Ok [t] /\
  step5_step6 [x :: start_scores] [y :: end_scores] [t :: tokens] = Ok [t].
Proof.
  intros Hx Hy. unfold all_at_most in Hx, Hy. rewrite Forall_forall in Hx, Hy.
  pose proof (FirstMaxFacts.FirstMax_head x start_scores Hx) as Hi.
  pose proof (FirstMaxFacts.FirstMax_head y end_scores Hy) as Hj.
  destruct (DecodeFacts.span_of_first_maxima_rows _ _ 0 0 Hi Hj) as [Hf Hc].
  change (Z.of_nat 0 + 1) with 1 in Hf, Hc.
  change (Z.of_nat 0) with 0 in Hf, Hc.
  assert (Hslice : py_slice (t :: tokens) 0 1 = [t]).
  { rewrite SliceMore.py_slice_nonneg by lia. reflexivity. }
  split; [exact Hf | split].
  - now rewrite (DecodeFacts.tokens_of_span _ _ _ [] _ _ Hf), Hslice.
  - now rewrite (DecodeFacts.step_tokens_of_span _ _ _ [] _ _ Hc), Hslice.
Qed.

Lemma leading_maximum_selects_first_token_witness :
  find_answer_span [scores [0.5; 0.5; 0.5]%float] [scores [0.25; 0.25; 0.25]%float]
  = Ok (0, 1) /\
  select_answer_tokens [scores [0.5; 0.5; 0.5]%float]
    [scores [0.25; 0.25; 0.25]%float] [[101; 1327; 102]] = Ok [101] /\
  step5_step6 [scores [0.5; 0.5; 0.5]%float]
    [scores [0.25; 0.25; 0.25]%float] [[101; 1327; 102]] = Ok [101].
Proof.
  apply (leading_maximum_selects_first_token
           (Prim2SF 0.5%float) (Prim2SF 0.25%float)
           (scores [0.5; 0.5]%float) (scores [0.25; 0.25]%float)
           101 [1327; 102]); repeat constructor.
Defined.

(** X10. The two answers the notebook prints agree: when the tokenizer call
    of [answer_question] returns the tokens of Step 3 followed by padding,
    and the compiled model returns scores that order the token positions as
    the torch model's scores do, followed by padding scores that are not
    above the maxima, then [answer_question] returns what the cells of Step 4
    to Step 6 compute. *)
Theorem notebook_and_function_answers_agree
    (model : model_inputs -> QAOutput) (compiled_model : CompiledModel)
    (tokenizer : Tokenizer) (question context : string)
    (inputs : model_inputs) (tokens pad_tokens : list Z)
    (start_scores end_scores start_scores' end_scores' : list score)
    (pad_start pad_end : list score) (max_start max_end : score) :
  let inputs' := tokenize tokenizer question context answer_question_kwargs in
  input_ids inputs = [tokens] ->
  model inputs
  = {| start_logits := [start_scores]; end_logits := [end_scores] |} ->
  input_ids inputs' = [tokens ++ pad_tokens] ->
  infer_new_request compiled_model inputs'
  = [[start_scores' ++ pad_start]; [end_scores' ++ pad_end]] ->
  order_alike start_scores start_scores' ->
  order_alike end_scores end_scores' ->
  maximum start_scores' = Some max_start -> all_at_most max_start pad_start ->
  maximum end_scores' = Some max_end -> all_at_most max_end pad_end ->
  length end_scores = length tokens ->
  answer_question compiled_model tokenizer question context
  = notebook_answer model tokenizer inputs.
Proof.
  intros inputs' Hids Hmodel Hids' Hout Hos Hoe Hms Hps Hme Hpe Hlen.
  assert (Hs : start_scores <> []).
  { pose proof (DecodeFacts.maximum_nonempty _ _ Hms) as H.
    destruct Hos as [L _]. destruct start_scores, start_scores';
      cbn in L; congruence. }
  assert (He : end_scores <> []).
  { pose proof (DecodeFacts.maximum_nonempty _ _ Hme) as H.
    destruct Hoe as [L _]. destruct end_scores, end_scores';
      cbn in L; congruence. }
  destruct (DecodeFacts.first_max_exists _ Hs) as (i & Hi).
  destruct (DecodeFacts.first_max_exists _ He) as (j & Hj).
  pose proof (FirstMaxMore.FirstMax_app _ _ _ _ Hms Hps
                (FirstMaxMore.FirstMax_alike _ _ _ Hos Hi)) as Hi'.
  pose proof (FirstMaxMore.FirstMax_app _ _ _ _ Hme Hpe
                (FirstMaxMore.FirstMax_alike _ _ _ Hoe Hj)) as Hj'.
  destruct (DecodeFacts.span_of_first_maxima_rows _ _ i j Hi Hj) as [_ Hc].
  destruct (DecodeFacts.span_of_first_maxima_rows _ _ i j Hi' Hj') as [Hf _].
  unfold answer_question, notebook_answer.
  fold answer_question_kwargs. fold inputs'.
  rewrite Hout, Hids', Hmodel, Hids. cbn [unpack2 bind start_logits end_logits].
  rewrite (DecodeFacts.tokens_of_span _ _ _ [] _ _ Hf), Hc. cbn [bind].
  unfold step6_answer_tokens. cbn [getitem0 bind].
  apply FirstMaxFacts.FirstMax_lt_length in Hj.
  now rewrite SliceMore.py_slice_app by lia.
Qed.

Lemma notebook_and_function_answers_agree_witness :
  answer_question
    (Toy.compiled_model
       [[scores [0.125; 0.875; 0.25]%float ++ scores [-9.0; -9.0]%float];
        [scores [0.0; 0.5; 0.75]%float ++ scores [-9.0; -9.0]%float]])
    (Toy.tokenizer [101; 1327; 102]) "What is ONNX?" "ONNX is open."
  = notebook_answer
      (Toy.model (scores [0.1; 0.9; 0.2]%float) (scores [0.05; 0.1; 0.8]%float))
      (Toy.tokenizer [101; 1327; 102])
      {| input_ids := [[101; 1327; 102]]; attention_mask := [[1; 1; 1]] |}.
Proof.
  apply (notebook_and_function_answers_agree
           (Toy.model (scores [0.1; 0.9; 0.2]%float)
                      (scores [0.05; 0.1; 0.8]%float))
           (Toy.compiled_model
              [[scores [0.125; 0.875; 0.25]%float ++ scores [-9.0; -9.0]%float];
               [scores [0.0; 0.5; 0.75]%float ++ scores [-9.0; -9.0]%float]])
           (Toy.tokenizer [101; 1327; 102]) "What is ONNX?" "ONNX is open."
           {| input_ids := [[101; 1327; 102]]; attention_mask := [[1; 1; 1]] |}
           [101; 1327; 102] (repeat 0 509)
           (scores [0.1; 0.9; 0.2]%float) (scores [0.05; 0.1; 0.8]%float)
           (scores [0.125; 0.875; 0.25]%float) (scores [0.0; 0.5; 0.75]%float)
           (scores [-9.0; -9.0]%float) (scores [-9.0; -9.0]%float)
           (Prim2SF 0.875%float) (Prim2SF 0.75%float)).
  - reflexivity.
  - reflexivity.
  - reflexivity.
  - reflexivity.
  - split; [reflexivity | ].
    intros i j x y x' y' Hx Hy Hx' Hy'.
    destruct i as [ | [ | [ | i]]]; cbn in Hx, Hx';
      try (destruct i; discriminate);
      destruct j as [ | [ | [ | j]]]; cbn in Hy, Hy';
      try (destruct j; discriminate);
      injection Hx as <-; injection Hy as <-;
      injection Hx' as <-; injection Hy' as <-; reflexivity.
  - split; [reflexivity | ].
    intros i j x y x' y' Hx Hy Hx' Hy'.
    destruct i as [ | [ | [ | i]]]; cbn in Hx, Hx';
      try (destruct i; discriminate);
      destruct j as [ | [ | [ | j]]]; cbn in Hy, Hy';
      try (destruct j; discriminate);
      injection Hx as <-; injection Hy as <-;
      injection Hx' as <-; injection Hy' as <-; reflexivity.
  - reflexivity.
  - repeat constructor.
  - reflexivity.
  - repeat constructor.
  - reflexivity.
Defined.

Example notebook_answer_ex :
  notebook_answer
    (Toy.model (scores [0.1; 0.9; 0.2]%float) (scores [0.05; 0.1; 0.8]%float))
    (Toy.tokenizer [101; 1327; 102])
    {| input_ids := [[101; 1327; 102]]; attention_mask := [[1; 1; 1]] |}
  = Ok "What [SEP]"%string.
Proof. reflexivity. Qed.

(** X11. Padding is not masked: when some padding score is strictly above
    every start score, the start index points into the padding. *)
Theorem high_padding_score_is_chosen
    (start_scores pad_start : list score) (max_start y : score) :
  maximum start_scores = Some max_start ->
  In y pad_start -> Score.ltb max_start y = true ->
  exists start_index,
    start_index_of [start_scores ++ pad_start] = Ok start_index /\
    Z.of_nat (length start_scores) <= start_index
      < Z.of_nat (length start_scores + length pad_start).
Proof.
  intros Hm Hy Hlt.
  pose proof (DecodeFacts.maximum_nonempty _ _ Hm) as Hs.
  assert (Hne : start_scores ++ pad_start <> []).
  { destruct start_scores; [congruence | discriminate]. }
  destruct (DecodeFacts.first_max_exists _ Hne) as (i & Hi).
  destruct (FirstMaxMore.FirstMax_argmax_flat _ _ Hi) as (Hn & _).
  exists (Z.of_nat i). unfold start_index_of, Numpy.argmax.
  rewrite ArgmaxFacts.ravel_row, Hn. split; [reflexivity | ].
  pose proof (FirstMaxFacts.FirstMax_lt_length _ _ Hi) as Hlen.
  rewrite length_app in Hlen. split; [ | lia].
  destruct (Nat.lt_ge_cases i (length start_scores)) as [Hin | Hout]; [ | lia].
  exfalso. destruct Hi as (x & Hx & Hmax & _).
  rewrite nth_error_app1 in Hx by exact Hin.
  assert (Hxm : Score.leb x max_start = true).
  { destruct start_scores as [ | z l]; [discriminate | ].
    cbn in Hm. injection Hm as <-.
    destruct (FirstMaxFacts.fold_max_spec l z) as (H1 & H2 & _).
    apply nth_error_In in Hx. destruct Hx as [<- | Hx]; auto. }
  assert (Hyx : Score.leb y x = true) by (apply Hmax, in_or_app; now right).
  apply ScoreFacts.ltb_not_leb in Hlt.
  rewrite (ScoreFacts.leb_trans _ _ _ Hyx Hxm) in Hlt. discriminate.
Qed.

Lemma high_padding_score_is_chosen_witness :
  exists start_index,
    start_index_of [scores [0.1; 0.9; 0.2]%float ++ scores [0.5; 1.5]%float]
      = Ok start_index /\
    3 <= start_index < 5.
Proof.
  apply (high_padding_score_is_chosen
           (scores [0.1; 0.9; 0.2]%float) (scores [0.5; 1.5]%float)
           (Prim2SF 0.9%float) (Prim2SF 1.5%float)).
  - reflexivity.
  - right. left. reflexivity.
  - reflexivity.
Defined.
